(** * Crawl orchestration of the AI website scanner (App component)

    A shallow embedding of the orchestration logic of [App]: the link and
    asset frontier, the accumulation of a streamed planner reply into
    transcript turns, the dispatch of an approved tool call, and the
    cancellable bulk scan.

    React state is a record that the handlers thread explicitly; a state
    setter called with an updater function is the application of that
    function to the current value.  Collaborators (page scanner, analyzers,
    image fetcher, conversation transport, JSON serializer) and the choices
    of the scheduler and of the user while a handler is suspended are the
    fields of a [World]; every collaborator call is recorded in a trace.

    An awaited call settles, with a value or with an error.  A handler runs
    from its call to its settlement before the next one is called; what
    happens while it is suspended is modelled in two places, where the
    source gives it a meaning: the order in which the scans of one
    [scanPages] call settle, and the stop button during a bulk scan. *)

From Stdlib Require Import String Ascii List Bool Arith Lia.
Import ListNotations.
Open Scope string_scope.

(** ** JavaScript strings

    A string is a sequence of code units; the model's alphabet is the code
    units below 256. *)

(** [if (s)] on a string: the empty string is the only falsy one. *)
Definition truthy (s : string) : bool :=
  match s with
  | EmptyString => false
  | String _ _ => true
  end.

(** WhiteSpace and LineTerminator code units of ECMAScript below 256:
    TAB, LF, VT, FF, CR, SP and NBSP. *)
Definition isWhiteSpace (c : ascii) : bool :=
  let n := nat_of_ascii c in
  Nat.eqb n 9 || Nat.eqb n 10 || Nat.eqb n 11 || Nat.eqb n 12
  || Nat.eqb n 13 || Nat.eqb n 32 || Nat.eqb n 160.

Fixpoint trimStart (s : string) : string :=
  match s with
  | EmptyString => EmptyString
  | String c s' => if isWhiteSpace c then trimStart s' else s
  end.

Fixpoint trimEnd (s : string) : string :=
  match s with
  | EmptyString => EmptyString
  | String c s' =>
      match trimEnd s' with
      | EmptyString => if isWhiteSpace c then EmptyString else String c EmptyString
      | t => String c t
      end
  end.

(** [String.prototype.trim]. *)
Definition trim (s : string) : string := trimEnd (trimStart s).

(** The double-quote character, for template strings that contain it. *)
Definition dquote : string := String (ascii_of_nat 34) EmptyString.

(** ** JavaScript [Map] with string keys

    A [Map] iterates in insertion order and [set] on an existing key keeps
    the key's position, so the model is an association list with one entry
    per key.  [new Map(prev)] is a copy, which a persistent list gives for
    free. *)
Module JsMap.

Definition t (V : Type) : Type := list (string * V).

Fixpoint get {V : Type} (k : string) (m : t V) : option V :=
  match m with
  | [] => None
  | (k', v) :: m' => if String.eqb k' k then Some v else get k m'
  end.

Definition has {V : Type} (k : string) (m : t V) : bool :=
  match get k m with
  | Some _ => true
  | None => false
  end.

Fixpoint set {V : Type} (k : string) (v : V) (m : t V) : t V :=
  match m with
  | [] => [(k, v)]
  | (k', v') :: m' =>
      if String.eqb k' k then (k, v) :: m' else (k', v') :: set k v m'
  end.

Definition keys {V : Type} (m : t V) : list string := map fst m.

Definition values {V : Type} (m : t V) : list V := map snd m.

End JsMap.

(** ** types.ts *)

Module AppStatus.
Inductive t : Type := input | scanning | chat.
End AppStatus.

Inductive LinkStatus : Type := pending | scanning | scanned | failed.

Definition LinkStatus_eqb (a b : LinkStatus) : bool :=
  match a, b with
  | pending, pending | scanning, scanning
  | scanned, scanned | failed, failed => true
  | _, _ => false
  end.

(** The status as the string the source writes. *)
Definition LinkStatus_string (s : LinkStatus) : string :=
  match s with
  | pending => "pending"
  | scanning => "scanning"
  | scanned => "scanned"
  | failed => "failed"
  end.

(** A link record as it sits in the map at run time.  The interface
    declares [url] and [title] required, but [updateLinkStatus] builds its
    record by spreading [prev.get(url)!], which is [undefined] for an
    unknown URL: an absent property is [None]. *)
Record DiscoveredLink : Type := {
  url : option string;
  status : LinkStatus;
  title : option string;
  textContent : option string;
  htmlContent : option string
}.

(** [Partial<DiscoveredLink>]: [Some v] is an own property with value [v]. *)
Record PartialLink : Type := {
  p_url : option string;
  p_status : option LinkStatus;
  p_title : option string;
  p_textContent : option string;
  p_htmlContent : option string
}.

Inductive AssetType : Type := image | pdf | video.

Record DiscoveredAsset : Type := {
  asset_url : string;
  asset_type : AssetType;
  sourcePage : string
}.

(** Arguments of a tool call, typed as the tools declare them; a tool reads
    only the fields it names. *)
Record Args : Type := {
  arg_urls : list string;
  arg_url : string;
  arg_dataType : string;
  arg_prompt : string
}.

(** A function-call object.  [fc_ref] is the identity of the JavaScript
    object: the transcript is filtered with [!==] on the object. *)
Record FunctionCall : Type := {
  fc_ref : nat;
  name : string;
  args : Args
}.

Inductive Sender : Type := user | bot.

(** A transcript turn.  The [id] the source draws from the clock and the
    random generator is left out: nothing in [App] reads it.  The function
    call of a proposal is [accumulatedFunctionCalls[0]], which is
    [undefined] on an empty array. *)
Inductive ChatMessage : Type :=
  | TextChatMessage (text : string) (sender : Sender)
  | FunctionCallChatMessage (functionCall : option FunctionCall).

(** ** Values exchanged with the collaborators *)

(** A thrown [Error], by its [message]. *)
Record JsError : Type := { message : string }.

Inductive Completion (A : Type) : Type :=
  | Ok (a : A)
  | Throw (e : JsError).
Arguments Ok {A} a.
Arguments Throw {A} e.

(** What [scanPage] resolves to. *)
Record ScanResult : Type := {
  r_textContent : string;
  r_links : list string;
  r_assets : list DiscoveredAsset;
  r_title : string;
  r_htmlContent : string
}.

Record EncodedImage : Type := {
  base64Data : string;
  mimeType : string
}.

(** The argument of [JSON.stringify].  Properties are in source order. *)
#[warnings="-register-all"]
Inductive Json : Type :=
  | JString (s : string)
  | JNumber (n : nat)
  | JBool (b : bool)
  | JArray (items : list Json)
  | JObject (props : list (string * Json)).

(** One chunk of a streamed reply, with the part of its shape that [App]
    reads.  [functionCalls] is the value of the SDK's accessor. *)
Record Part : Type := { text : option string }.
Record Content : Type := { parts : option (list Part) }.
Record Candidate : Type := { content : option Content }.
Record GenerateContentResponse : Type := {
  candidates : option (list Candidate);
  functionCalls : option (list FunctionCall)
}.

(** The argument of [sendMessageStream]. *)
Inductive SendPayload : Type :=
  | MessageText (s : string)
  | MessageFunctionResponse (fname : string) (result : string).

(** Calls to the collaborators, in the order they are made. *)
Inductive Event : Type :=
  | EvCreateChatSession
  | EvScanPage (u : string)
  | EvExtractStructuredData (html dataType : string)
  | EvAnalyzeSeo (html : string)
  | EvFetchAndEncodeImage (u : string)
  | EvSendMessageStream (p : SendPayload).

(** The collaborators and the environment's choices.  The first argument of
    a collaborator is the logical time of the call (the number of calls
    made before it), so that an answer may change from one call to the
    next.  [userStops t] tells whether the user presses stop while the call
    made at time [t] is in flight; [settleOrder t n] is the order in which
    [n] scans started together at time [t] settle (in a run, a permutation
    of [0 .. n-1]; no property below needs that). *)
Record World : Type := {
  scanPage : nat -> string -> Completion ScanResult;
  extractStructuredData : nat -> string -> string -> Json;
  analyzeSeo : nat -> string -> Json;
  fetchAndEncodeImage : nat -> string -> Completion EncodedImage;
  sendMessageStream : nat -> SendPayload -> Completion (list GenerateContentResponse);
  JSON_stringify : Json -> option nat -> string;
  userStops : nat -> bool;
  settleOrder : nat -> nat -> list nat
}.

(** ** The component's state

    The [useState] cells and the [useRef] cells of [App].  An
    [AbortController] is an object shared between the ref and the running
    bulk scan: [abortControllers] is the store of these objects (the
    [aborted] flag of each) and [fullScanAbortController] holds the address
    of the current one.  [chatRef] holds the session's identity.  [trace]
    is the record of collaborator calls; [linksLog] is a ghost field that
    keeps every value [discoveredLinks] has been set to, oldest first. *)
Record App : Type := {
  appStatus : AppStatus.t;
  error : option string;
  chatHistory : list ChatMessage;
  discoveredLinks : JsMap.t DiscoveredLink;
  discoveredAssets : JsMap.t DiscoveredAsset;
  isSitemapOpen : bool;
  isFullScanning : bool;
  abortControllers : list bool;
  fullScanAbortController : option nat;
  chatRef : option nat;
  currentUrlRef : string;
  trace : list Event;
  linksLog : list (JsMap.t DiscoveredLink)
}.

Definition setStatus (v : AppStatus.t) (st : App) : App :=
  {| appStatus := v; error := error st; chatHistory := chatHistory st;
     discoveredLinks := discoveredLinks st;
     discoveredAssets := discoveredAssets st;
     isSitemapOpen := isSitemapOpen st; isFullScanning := isFullScanning st;
     abortControllers := abortControllers st;
     fullScanAbortController := fullScanAbortController st;
     chatRef := chatRef st; currentUrlRef := currentUrlRef st;
     trace := trace st; linksLog := linksLog st |}.

Definition setError (v : option string) (st : App) : App :=
  {| appStatus := appStatus st; error := v; chatHistory := chatHistory st;
     discoveredLinks := discoveredLinks st;
     discoveredAssets := discoveredAssets st;
     isSitemapOpen := isSitemapOpen st; isFullScanning := isFullScanning st;
     abortControllers := abortControllers st;
     fullScanAbortController := fullScanAbortController st;
     chatRef := chatRef st; currentUrlRef := currentUrlRef st;
     trace := trace st; linksLog := linksLog st |}.

Definition setChatHistory (f : list ChatMessage -> list ChatMessage) (st : App) : App :=
  {| appStatus := appStatus st; error := error st;
     chatHistory := f (chatHistory st);
     discoveredLinks := discoveredLinks st;
     discoveredAssets := discoveredAssets st;
     isSitemapOpen := isSitemapOpen st; isFullScanning := isFullScanning st;
     abortControllers := abortControllers st;
     fullScanAbortController := fullScanAbortController st;
     chatRef := chatRef st; currentUrlRef := currentUrlRef st;
     trace := trace st; linksLog := linksLog st |}.

Definition setDiscoveredAssets (f : JsMap.t DiscoveredAsset -> JsMap.t DiscoveredAsset) (st : App) : App :=
  {| appStatus := appStatus st; error := error st;
     chatHistory := chatHistory st; discoveredLinks := discoveredLinks st;
     discoveredAssets := f (discoveredAssets st);
     isSitemapOpen := isSitemapOpen st; isFullScanning := isFullScanning st;
     abortControllers := abortControllers st;
     fullScanAbortController := fullScanAbortController st;
     chatRef := chatRef st; currentUrlRef := currentUrlRef st;
     trace := trace st; linksLog := linksLog st |}.

Definition setIsSitemapOpen (v : bool) (st : App) : App :=
  {| appStatus := appStatus st; error := error st;
     chatHistory := chatHistory st; discoveredLinks := discoveredLinks st;
     discoveredAssets := discoveredAssets st; isSitemapOpen := v;
     isFullScanning := isFullScanning st;
     abortControllers := abortControllers st;
     fullScanAbortController := fullScanAbortController st;
     chatRef := chatRef st; currentUrlRef := currentUrlRef st;
     trace := trace st; linksLog := linksLog st |}.

Definition setIsFullScanning (v : bool) (st : App) : App :=
  {| appStatus := appStatus st; error := error st;
     chatHistory := chatHistory st; discoveredLinks := discoveredLinks st;
     discoveredAssets := discoveredAssets st;
     isSitemapOpen := isSitemapOpen st; isFullScanning := v;
     abortControllers := abortControllers st;
     fullScanAbortController := fullScanAbortController st;
     chatRef := chatRef st; currentUrlRef := currentUrlRef st;
     trace := trace st; linksLog := linksLog st |}.

Definition set_abortControllers (v : list bool) (st : App) : App :=
  {| appStatus := appStatus st; error := error st;
     chatHistory := chatHistory st; discoveredLinks := discoveredLinks st;
     discoveredAssets := discoveredAssets st;
     isSitemapOpen := isSitemapOpen st; isFullScanning := isFullScanning st;
     abortControllers := v;
     fullScanAbortController := fullScanAbortController st;
     chatRef := chatRef st; currentUrlRef := currentUrlRef st;
     trace := trace st; linksLog := linksLog st |}.

Definition set_fullScanAbortController (v : option nat) (st : App) : App :=
  {| appStatus := appStatus st; error := error st;
     chatHistory := chatHistory st; discoveredLinks := discoveredLinks st;
     discoveredAssets := discoveredAssets st;
     isSitemapOpen := isSitemapOpen st; isFullScanning := isFullScanning st;
     abortControllers := abortControllers st; fullScanAbortController := v;
     chatRef := chatRef st; currentUrlRef := currentUrlRef st;
     trace := trace st; linksLog := linksLog st |}.

Definition set_chatRef (v : option nat) (st : App) : App :=
  {| appStatus := appStatus st; error := error st;
     chatHistory := chatHistory st; discoveredLinks := discoveredLinks st;
     discoveredAssets := discoveredAssets st;
     isSitemapOpen := isSitemapOpen st; isFullScanning := isFullScanning st;
     abortControllers := abortControllers st;
     fullScanAbortController := fullScanAbortController st; chatRef := v;
     currentUrlRef := currentUrlRef st; trace := trace st;
     linksLog := linksLog st |}.

Definition set_currentUrlRef (v : string) (st : App) : App :=
  {| appStatus := appStatus st; error := error st;
     chatHistory := chatHistory st; discoveredLinks := discoveredLinks st;
     discoveredAssets := discoveredAssets st;
     isSitemapOpen := isSitemapOpen st; isFullScanning := isFullScanning st;
     abortControllers := abortControllers st;
     fullScanAbortController := fullScanAbortController st;
     chatRef := chatRef st; currentUrlRef := v; trace := trace st;
     linksLog := linksLog st |}.

(** [setDiscoveredLinks(prev => f prev)]; the new value is also logged. *)
Definition setDiscoveredLinks
  (f : JsMap.t DiscoveredLink -> JsMap.t DiscoveredLink) (st : App) : App :=
  {| appStatus := appStatus st; error := error st;
     chatHistory := chatHistory st;
     discoveredLinks := f (discoveredLinks st);
     discoveredAssets := discoveredAssets st;
     isSitemapOpen := isSitemapOpen st; isFullScanning := isFullScanning st;
     abortControllers := abortControllers st;
     fullScanAbortController := fullScanAbortController st;
     chatRef := chatRef st; currentUrlRef := currentUrlRef st;
     trace := trace st;
     linksLog := linksLog st ++ [f (discoveredLinks st)] |}.

(** A collaborator is called: the call joins the trace. *)
Definition logEvent (e : Event) (st : App) : App :=
  {| appStatus := appStatus st; error := error st;
     chatHistory := chatHistory st; discoveredLinks := discoveredLinks st;
     discoveredAssets := discoveredAssets st;
     isSitemapOpen := isSitemapOpen st; isFullScanning := isFullScanning st;
     abortControllers := abortControllers st;
     fullScanAbortController := fullScanAbortController st;
     chatRef := chatRef st; currentUrlRef := currentUrlRef st;
     trace := trace st ++ [e]; linksLog := linksLog st |}.

(** The logical time: the number of collaborator calls made so far. *)
Definition clock (st : App) : nat := length (trace st).

(** The state of a freshly mounted component. *)
Definition initialApp : App :=
  {| appStatus := AppStatus.input; error := None; chatHistory := [];
     discoveredLinks := []; discoveredAssets := []; isSitemapOpen := false;
     isFullScanning := false; abortControllers := [];
     fullScanAbortController := None; chatRef := None; currentUrlRef := "";
     trace := []; linksLog := [] |}.

(** ** Frontier store (App, lines 32-50) *)

Definition addMessage (m : ChatMessage) (st : App) : App :=
  setChatHistory (fun prev => (prev ++ [m])%list) st.

Definition orElse {A : Type} (a b : option A) : option A :=
  match a with
  | Some _ => a
  | None => b
  end.

Definition noData : PartialLink :=
  {| p_url := None; p_status := None; p_title := None;
     p_textContent := None; p_htmlContent := None |}.

(** [{ ...old!, status, ...data }]: the properties of [data] win over
    [status], which wins over those of [old]; spreading [undefined] adds
    nothing. *)
Definition spreadLink (old : option DiscoveredLink) (s : LinkStatus)
  (data : PartialLink) : DiscoveredLink :=
  {| url := orElse (p_url data) (match old with Some l => url l | None => None end);
     status := match p_status data with Some s' => s' | None => s end;
     title := orElse (p_title data) (match old with Some l => title l | None => None end);
     textContent :=
       orElse (p_textContent data)
              (match old with Some l => textContent l | None => None end);
     htmlContent :=
       orElse (p_htmlContent data)
              (match old with Some l => htmlContent l | None => None end) |}.

(** The updater of [updateLinkStatus]. *)
Definition updateLink (u : string) (s : LinkStatus) (data : PartialLink)
  (prev : JsMap.t DiscoveredLink) : JsMap.t DiscoveredLink :=
  JsMap.set u (spreadLink (JsMap.get u prev) s data) prev.

Definition updateLinkStatus (u : string) (s : LinkStatus) (data : PartialLink)
  (st : App) : App :=
  setDiscoveredLinks (updateLink u s data) st.

Definition addAsset (newMap : JsMap.t DiscoveredAsset) (asset : DiscoveredAsset)
  : JsMap.t DiscoveredAsset :=
  if negb (JsMap.has (asset_url asset) newMap)
  then JsMap.set (asset_url asset) asset newMap
  else newMap.

(** The updater of [addDiscoveredAssets]. *)
Definition addAssets (assets : list DiscoveredAsset) (prev : JsMap.t DiscoveredAsset)
  : JsMap.t DiscoveredAsset :=
  fold_left addAsset assets prev.

Definition addDiscoveredAssets (assets : list DiscoveredAsset) (st : App) : App :=
  setDiscoveredAssets (addAssets assets) st.

Definition pendingLink (linkUrl : string) : DiscoveredLink :=
  {| url := Some linkUrl; status := pending; title := Some "Unknown Title";
     textContent := None; htmlContent := None |}.

(** The updater run for each outbound link of a scanned page (lines
    156-161 and 257-262; lines 112-114 apply it to the map under
    construction). *)
Definition registerLink (linkUrl : string) (prev : JsMap.t DiscoveredLink)
  : JsMap.t DiscoveredLink :=
  if negb (JsMap.has linkUrl prev)
  then JsMap.set linkUrl (pendingLink linkUrl) prev
  else prev.

(** [links.forEach(linkUrl => setDiscoveredLinks(...))]. *)
Definition registerDiscoveredLinks (links : list string) (st : App) : App :=
  fold_left (fun st' linkUrl => setDiscoveredLinks (registerLink linkUrl) st')
            links st.

(** ** Turn accumulation (lines 52-96) *)

Definition emptyResponseNotice : string :=
  "I received a response, but it was empty. Can you try rephrasing?".

(** [chunk.candidates && chunk.candidates[0]?.content?.parts]. *)
Definition firstCandidateParts (chunk : GenerateContentResponse)
  : option (list Part) :=
  match candidates chunk with
  | Some (c :: _) =>
      match content c with
      | Some ct => parts ct
      | None => None
      end
  | _ => None
  end.

Definition addPartText (accumulatedText : string) (part : Part) : string :=
  match text part with
  | Some t => if truthy t then accumulatedText ++ t else accumulatedText
  | None => accumulatedText
  end.

(** The body of the [for await] loop. *)
Definition accumulateChunk (acc : string * option (list FunctionCall))
  (chunk : GenerateContentResponse) : string * option (list FunctionCall) :=
  let accumulatedText :=
    match firstCandidateParts chunk with
    | Some ps => fold_left addPartText ps (fst acc)
    | None => fst acc
    end in
  let accumulatedFunctionCalls :=
    match functionCalls chunk with
    | Some calls => Some calls
    | None => snd acc
    end in
  (accumulatedText, accumulatedFunctionCalls).

Definition accumulateStream (responseStream : list GenerateContentResponse)
  : string * option (list FunctionCall) :=
  fold_left accumulateChunk responseStream ("", None).

Definition isSome {A : Type} (o : option A) : bool :=
  match o with
  | Some _ => true
  | None => false
  end.

(** [responseStream] is a stream that was consumed to its end. *)
Definition processStreamAndAddMessages
  (responseStream : list GenerateContentResponse) (st : App) : App :=
  let accumulatedText := fst (accumulateStream responseStream) in
  let accumulatedFunctionCalls := snd (accumulateStream responseStream) in
  let trimmedText := trim accumulatedText in
  let st1 :=
    if truthy trimmedText
    then addMessage (TextChatMessage trimmedText bot) st
    else st in
  let st2 :=
    match accumulatedFunctionCalls with
    | Some calls => addMessage (FunctionCallChatMessage (nth_error calls 0)) st1
    | None => st1
    end in
  if negb (truthy trimmedText) && negb (isSome accumulatedFunctionCalls)
  then addMessage (TextChatMessage emptyResponseNotice bot) st2
  else st2.

(** ** Applying the result of one page scan (lines 154-163 and 255-264) *)

(** A handler's promise, settled. *)
Inductive Settled : Type :=
  | Resolved (st : App)
  | Rejected (e : JsError) (st : App).

Definition stateOf (s : Settled) : App :=
  match s with
  | Resolved st => st
  | Rejected _ st => st
  end.

Definition scannedData (r : ScanResult) : PartialLink :=
  {| p_url := None; p_status := None; p_title := Some (r_title r);
     p_textContent := Some (r_textContent r);
     p_htmlContent := Some (r_htmlContent r) |}.

(** What follows [await scanPage(scanUrl)] inside the [try]: the success
    path, or the [catch]. *)
Definition settleScan (scanUrl : string) (outcome : Completion ScanResult)
  (st : App) : App :=
  match outcome with
  | Ok r =>
      addDiscoveredAssets (r_assets r)
        (registerDiscoveredLinks (r_links r)
           (updateLinkStatus scanUrl scanned (scannedData r) st))
  | Throw _ => updateLinkStatus scanUrl failed noData st
  end.

(** ** Bulk scan (lines 236-278) *)

(** [controller.abort()] on the controller at address [a]. *)
Fixpoint abortAt (a : nat) (store : list bool) {struct store} : list bool :=
  match store, a with
  | [], _ => []
  | _ :: rest, O => true :: rest
  | b :: rest, S a' => b :: abortAt a' rest
  end.

Definition handleStopFullScan (st : App) : App :=
  let st1 :=
    match fullScanAbortController st with
    | Some a => set_abortControllers (abortAt a (abortControllers st)) st
    | None => st
    end in
  setIsFullScanning false st1.

(** [signal.aborted] for the controller at address [signal]. *)
Definition aborted (signal : nat) (st : App) : bool :=
  nth signal (abortControllers st) false.

(** The URLs of the links whose status is [pending], in map order.  A
    pending record always carries its [url]: it is only ever built by
    [pendingLink], which is part of what [wfLinks] says and every operation
    keeps.  A pending record without one, which no run produces,
    contributes nothing. *)
Definition pendingUrls (links : JsMap.t DiscoveredLink) : list string :=
  flat_map (fun link => match url link with Some u => [u] | None => [] end)
           (filter (fun link => LinkStatus_eqb (status link) pending)
                   (JsMap.values links)).

(** One turn of the [for ... of pendingUrls] loop past the abort check.
    While [scanPage] is awaited the user may press stop, which runs
    [handleStopFullScan]; the scan in flight then settles and its result is
    applied. *)
Definition bulkScanStep (W : World) (u : string) (st : App) : App :=
  let st1 := updateLinkStatus u scanning noData st in
  let t := clock st1 in
  let st2 := logEvent (EvScanPage u) st1 in
  let st3 := if userStops W t then handleStopFullScan st2 else st2 in
  settleScan u (scanPage W t u) st3.

(** The loop: [signal.aborted] is read at the top of every turn. *)
Fixpoint fullScanLoop (W : World) (signal : nat) (urls : list string)
  (st : App) : App :=
  match urls with
  | [] => st
  | u :: rest =>
      if aborted signal st then st
      else fullScanLoop W signal rest (bulkScanStep W u st)
  end.

(** [discoveredLinks] is the value the handler closed over, that of the
    state it is called in. *)
Definition handleFullScan (W : World) (isAiTriggered : bool) (st : App) : App :=
  let links := discoveredLinks st in
  let st1 := setIsFullScanning true st in
  let st2 := if negb isAiTriggered then setIsSitemapOpen false st1 else st1 in
  let signal := length (abortControllers st2) in
  let st3 :=
    set_fullScanAbortController (Some signal)
      (set_abortControllers (abortControllers st2 ++ [false]) st2) in
  let st4 := fullScanLoop W signal (pendingUrls links) st3 in
  setIsFullScanning false st4.

(** ** Tool dispatch (lines 136-226) *)

(** The synchronous start of one [async (scanUrl) => ...] callback: the
    link is marked and [scanPage] is called; the callback then waits. *)
Definition startScan (W : World)
  (acc : App * list (string * Completion ScanResult)) (scanUrl : string)
  : App * list (string * Completion ScanResult) :=
  let st1 := updateLinkStatus scanUrl scanning noData (fst acc) in
  let t := clock st1 in
  (logEvent (EvScanPage scanUrl) st1,
   (snd acc ++ [(scanUrl, scanPage W t scanUrl)])%list).

(** The [i]-th started scan settles. *)
Definition settleNth (started : list (string * Completion ScanResult))
  (st : App) (i : nat) : App :=
  match nth_error started i with
  | Some (scanUrl, outcome) => settleScan scanUrl outcome st
  | None => st
  end.

(** The value the [i]-th callback returns. *)
Definition scanResultEntry (p : string * Completion ScanResult) : Json :=
  match snd p with
  | Ok r =>
      JObject [("url", JString (fst p)); ("success", JBool true);
               ("title", JString (r_title r));
               ("content", JString (substring 0 1000 (r_textContent r)))]
  | Throw e =>
      JObject [("url", JString (fst p)); ("success", JBool false);
               ("error", JString (message e))]
  end.

(** The [scanPages] branch: all scans are started in list order, they
    settle in the order the world chooses, and [Promise.all] returns the
    results in list order. *)
Definition scanPages (W : World) (urlsToScan : list string) (st : App)
  : App * string :=
  let t0 := clock st in
  let begun := fold_left (startScan W) urlsToScan (st, []) in
  let st2 :=
    fold_left (settleNth (snd begun))
              (settleOrder W t0 (length urlsToScan)) (fst begun) in
  (st2, JSON_stringify W (JArray (map scanResultEntry (snd begun))) None).

(** [linkData?.status === 'scanned' && linkData.htmlContent]: the markup to
    analyse, when the test passes. *)
Definition scannedMarkup (linkData : option DiscoveredLink) : option string :=
  match linkData with
  | Some l =>
      if LinkStatus_eqb (status l) scanned
      then match htmlContent l with
           | Some h => if truthy h then Some h else None
           | None => None
           end
      else None
  | None => None
  end.

Definition notScannedPayload (W : World) (u : string) : string :=
  JSON_stringify W
    (JObject [("success", JBool false);
              ("error", JString ("Page " ++ u
                 ++ " has not been scanned yet. Please use scanPages first."))])
    None.

Definition fullScanAck : string :=
  "Full scan initiated. I will provide a summary once a significant number of pages are scanned.".

(** What the [if ... else if] chain leaves behind: the state, and the
    locals [resultPayload] and [userMessage]. *)
Record Dispatched : Type := {
  d_state : App;
  resultPayload : string;
  userMessage : string
}.

(** The chain of lines 147-213, on the five tool names.  [links] is the
    [discoveredLinks] the handler closed over. *)
Definition dispatchToolCall (W : World) (links : JsMap.t DiscoveredLink)
  (functionCall : FunctionCall) (st : App) : Dispatched :=
  let a := args functionCall in
  if String.eqb (name functionCall) "scanPages" then
    let done := scanPages W (arg_urls a) st in
    {| d_state := fst done; resultPayload := snd done;
       userMessage :=
         "User approved scanning: " ++ String.concat ", " (arg_urls a) |}
  else if String.eqb (name functionCall) "extractDataFromPage" then
    let userMessage' :=
      "User approved data extraction ('" ++ arg_dataType a ++ "') for: "
      ++ arg_url a in
    match scannedMarkup (JsMap.get (arg_url a) links) with
    | Some html =>
        let extractedData :=
          extractStructuredData W (clock st) html (arg_dataType a) in
        {| d_state := logEvent (EvExtractStructuredData html (arg_dataType a)) st;
           resultPayload :=
             JSON_stringify W
               (JObject [("success", JBool true); ("data", extractedData)]) None;
           userMessage := userMessage' |}
    | None =>
        {| d_state := st; resultPayload := notScannedPayload W (arg_url a);
           userMessage := userMessage' |}
    end
  else if String.eqb (name functionCall) "performSeoAnalysis" then
    let userMessage' := "User approved SEO Analysis for: " ++ arg_url a in
    match scannedMarkup (JsMap.get (arg_url a) links) with
    | Some html =>
        let analysisResult := analyzeSeo W (clock st) html in
        {| d_state := logEvent (EvAnalyzeSeo html) st;
           resultPayload :=
             JSON_stringify W
               (JObject [("success", JBool true); ("data", analysisResult)]) None;
           userMessage := userMessage' |}
    | None =>
        {| d_state := st; resultPayload := notScannedPayload W (arg_url a);
           userMessage := userMessage' |}
    end
  else if String.eqb (name functionCall) "analyzeImageFromUrl" then
    let imageUrl := arg_url a in
    {| d_state := logEvent (EvFetchAndEncodeImage imageUrl) st;
       resultPayload :=
         match fetchAndEncodeImage W (clock st) imageUrl with
         | Ok img =>
             JSON_stringify W
               (JObject
                  [("image",
                    JObject [("inlineData",
                              JObject [("data", JString (base64Data img));
                                       ("mimeType", JString (mimeType img))])]);
                   ("prompt", JString (arg_prompt a))]) None
         | Throw e =>
             JSON_stringify W
               (JObject [("success", JBool false);
                         ("error", JString ("Failed to fetch or encode image: "
                                            ++ message e))]) None
         end;
       userMessage := "User approved image analysis for: " ++ imageUrl |}
  else if String.eqb (name functionCall) "scanAllPendingPages" then
    {| d_state := handleFullScan W true st;
       resultPayload :=
         JSON_stringify W
           (JObject [("success", JBool true); ("message", JString fullScanAck)])
           None;
       userMessage := "User approved a full site scan." |}
  else
    {| d_state := st; resultPayload := ""; userMessage := "" |}.

Definition sameCall (m : option FunctionCall) (functionCall : FunctionCall) : bool :=
  match m with
  | Some c => Nat.eqb (fc_ref c) (fc_ref functionCall)
  | None => false
  end.

(** Line 137: the transcript without the proposal that is being answered,
    [msg.type !== 'function_call' || msg.functionCall !== functionCall]. *)
Definition withoutProposal (functionCall : FunctionCall) (st : App) : App :=
  setChatHistory
    (filter (fun msg =>
               match msg with
               | TextChatMessage _ _ => true
               | FunctionCallChatMessage c => negb (sameCall c functionCall)
               end)) st.

Definition declineNotice : string :=
  "Okay, I won't proceed with that action. How else can I help?".

(** [await chat.sendMessageStream(p)] followed by
    [await processStreamAndAddMessages(responseStream)]: a failure of the
    transport, at the send or in the middle of the stream, rejects before
    any turn is added. *)
Definition sendAndProcess (W : World) (p : SendPayload) (st : App) : Settled :=
  let st1 := logEvent (EvSendMessageStream p) st in
  match sendMessageStream W (clock st) p with
  | Ok responseStream => Resolved (processStreamAndAddMessages responseStream st1)
  | Throw e => Rejected e st1
  end.

Definition handleFunctionCallResponse (W : World) (approved : bool)
  (functionCall : FunctionCall) (st : App) : Settled :=
  let links := discoveredLinks st in
  let st1 := withoutProposal functionCall st in
  if negb approved then
    Resolved (addMessage (TextChatMessage declineNotice bot) st1)
  else
    let d := dispatchToolCall W links functionCall st1 in
    match chatRef (d_state d) with
    | Some _ =>
        sendAndProcess W
          (MessageFunctionResponse (name functionCall) (resultPayload d))
          (d_state d)
    | None => Resolved (d_state d)
    end.

(** [onManualScan] of the asset explorer (line 334); [ref] is the identity
    of the object literal it builds. *)
Definition onManualScan (W : World) (ref : nat) (u : string) (st : App) : Settled :=
  handleFunctionCallResponse W true
    {| fc_ref := ref; name := "scanPages";
       args := {| arg_urls := [u]; arg_url := ""; arg_dataType := "";
                  arg_prompt := "" |} |} st.

Definition handleSendMessage (W : World) (t : string) (st : App) : Settled :=
  match chatRef st with
  | None => Resolved st
  | Some _ =>
      sendAndProcess W (MessageText t) (addMessage (TextChatMessage t user) st)
  end.

(** ** Initial scan (lines 99-134) *)

(** A property whose value is [undefined] is left out by [JSON.stringify]. *)
Definition stringProp (k : string) (v : option string) : list (string * Json) :=
  match v with
  | Some s => [(k, JString s)]
  | None => []
  end.

Definition linkSummary (l : DiscoveredLink) : Json :=
  JObject (stringProp "url" (url l) ++ stringProp "title" (title l)
           ++ [("status", JString (LinkStatus_string (status l)))])%list.

Definition seedLinksMap (u : string) (r : ScanResult) : JsMap.t DiscoveredLink :=
  let initialLink :=
    {| url := Some u; status := scanned; title := Some (r_title r);
       textContent := Some (r_textContent r);
       htmlContent := Some (r_htmlContent r) |} in
  fold_left (fun newLinksMap linkUrl => registerLink linkUrl newLinksMap)
            (r_links r) (JsMap.set u initialLink []).

Definition initialMessage (W : World) (u : string) (r : ScanResult)
  (newLinksMap : JsMap.t DiscoveredLink) : string :=
  let initialPagesPayload :=
    JSON_stringify W (JArray (map linkSummary (JsMap.values newLinksMap)))
                   (Some 2) in
  "The initial scan of " ++ u ++ " is complete. The page title is "
  ++ dquote ++ r_title r ++ dquote ++ ". Here is the text content: "
  ++ dquote ++ substring 0 1000 (r_textContent r) ++ "..." ++ dquote
  ++ ". I also found these links: " ++ initialPagesPayload
  ++ ". Please provide your initial analysis and suggest key pages to scan next.".

(** The [catch] block. *)
Definition initialScanFailed (e : JsError) (st : App) : App :=
  setStatus AppStatus.input
    (setError
       (Some (if truthy (message e) then message e
              else "An unknown error occurred during the initial scan."))
       st).

Definition handleInitialScan (W : World) (u : string) (st : App) : App :=
  let st1 := set_currentUrlRef u (setError None (setStatus AppStatus.scanning st)) in
  let st2 := logEvent EvCreateChatSession (set_chatRef (Some (clock st1)) st1) in
  let st3 := logEvent (EvScanPage u) st2 in
  match scanPage W (clock st2) u with
  | Throw e => initialScanFailed e st3
  | Ok r =>
      let newLinksMap := seedLinksMap u r in
      let st4 :=
        setStatus AppStatus.chat
          (addDiscoveredAssets (r_assets r)
             (setDiscoveredLinks (fun _ => newLinksMap) st3)) in
      match sendAndProcess W (MessageText (initialMessage W u r newLinksMap)) st4 with
      | Resolved st5 => st5
      | Rejected e st5 => initialScanFailed e st5
      end
  end.

Definition handleReset (st : App) : App :=
  {| appStatus := AppStatus.input; error := None; chatHistory := [];
     discoveredLinks := []; discoveredAssets := []; isSitemapOpen := false;
     isFullScanning := false; abortControllers := abortControllers st;
     fullScanAbortController := fullScanAbortController st; chatRef := None;
     currentUrlRef := ""; trace := trace st;
     linksLog := (linksLog st ++ [[]])%list |}.

(** ** Operations on an open frontier

    What the planner and the user can run once a frontier has been seeded:
    an answer to a proposed tool call, a manual scan of one link, a plain
    message, a bulk scan and its stop button.  A handler runs from its call
    to its settlement; the only thing modelled inside a suspended handler is
    the stop button during a bulk scan. *)
Inductive Op : Type :=
  | OpFunctionCallResponse (approved : bool) (functionCall : FunctionCall)
  | OpManualScan (ref : nat) (u : string)
  | OpSendMessage (t : string)
  | OpFullScan (isAiTriggered : bool)
  | OpStopFullScan.

Definition runOp (W : World) (st : App) (op : Op) : App :=
  match op with
  | OpFunctionCallResponse approved functionCall =>
      stateOf (handleFunctionCallResponse W approved functionCall st)
  | OpManualScan ref u => stateOf (onManualScan W ref u st)
  | OpSendMessage t => stateOf (handleSendMessage W t st)
  | OpFullScan isAiTriggered => handleFullScan W isAiTriggered st
  | OpStopFullScan => handleStopFullScan st
  end.

Definition runOps (W : World) (ops : list Op) (st : App) : App :=
  fold_left (runOp W) ops st.

(** ** Reading the frontier *)

Definition statusOf (u : string) (links : JsMap.t DiscoveredLink)
  : option LinkStatus :=
  match JsMap.get u links with
  | Some l => Some (status l)
  | None => None
  end.

(** The values [discoveredLinks] takes between two states of a run, the
    value in the first state leading. *)
Definition linksBetween (st st' : App) : list (JsMap.t DiscoveredLink) :=
  discoveredLinks st :: skipn (length (linksLog st)) (linksLog st').

(** Every two successive values of a list are related, at every URL. *)
Fixpoint stepwise (R : option LinkStatus -> option LinkStatus -> bool)
  (ms : list (JsMap.t DiscoveredLink)) : Prop :=
  match ms with
  | m :: ((m' :: _) as rest) =>
      (forall u, R (statusOf u m) (statusOf u m') = true) /\ stepwise R rest
  | _ => True
  end.

(** The moves of the status state machine as the specification words them:
    [pending -> scanning -> {scanned, failed}], a failed link may re-enter
    [scanning]; a link is created [pending] (or [scanned], the seed); a
    status may stay as it is. *)
Definition specStep (old new : option LinkStatus) : bool :=
  match old, new with
  | None, None => true
  | None, Some pending | None, Some scanned => true
  | Some pending, Some pending | Some pending, Some scanning => true
  | Some scanning, Some scanning => true
  | Some scanning, Some scanned | Some scanning, Some failed => true
  | Some scanned, Some scanned => true
  | Some failed, Some failed | Some failed, Some scanning => true
  | _, _ => false
  end.

(** The moves the handlers make: a link is created [pending], or
    [scanning] when a scan names a URL the frontier does not hold; a
    pending link can only start scanning; a link that has left [pending]
    moves freely among [scanning], [scanned] and [failed]. *)
Definition codeStep (old new : option LinkStatus) : bool :=
  match old, new with
  | None, None => true
  | None, Some pending | None, Some scanning => true
  | Some pending, Some pending | Some pending, Some scanning => true
  | Some pending, _ => false
  | Some _, Some pending => false
  | Some _, Some _ => true
  | _, _ => false
  end.

(** ** Reading a reply stream *)

(** The textual fragments of a chunk, in the order of its parts. *)
Definition chunkFragments (chunk : GenerateContentResponse) : list string :=
  match firstCandidateParts chunk with
  | Some ps =>
      flat_map (fun part => match text part with Some t => [t] | None => [] end) ps
  | None => []
  end.

(** All fragments of all chunks, in chunk order, joined into one string. *)
Definition streamText (responseStream : list GenerateContentResponse) : string :=
  fold_right append "" (flat_map chunkFragments responseStream).

(** The tool-call list of the last chunk that carries one. *)
Fixpoint lastCalls (responseStream : list GenerateContentResponse)
  : option (list FunctionCall) :=
  match responseStream with
  | [] => None
  | chunk :: rest =>
      match lastCalls rest with
      | Some calls => Some calls
      | None => functionCalls chunk
      end
  end.

(** The precondition of the two analysis tools in the specification's
    words: the link of [u] is scanned and its markup is present. *)
Definition scannedWithMarkup (links : JsMap.t DiscoveredLink) (u : string) : Prop :=
  exists l h,
    JsMap.get u links = Some l /\ status l = scanned
    /\ htmlContent l = Some h /\ h <> "".

(** The five tool names the dispatcher knows. *)
Definition toolNames : list string :=
  ["scanPages"; "extractDataFromPage"; "performSeoAnalysis";
   "analyzeImageFromUrl"; "scanAllPendingPages"].

(** ** A small site, for the examples

    A home page linking to two pages, one of which links to a third; any
    other URL fails to load.  The planner answers every message with one
    short text chunk. *)

Definition seedUrl : string := "https://site.test/".
Definition urlB : string := "https://site.test/b".
Definition urlC : string := "https://site.test/c".
Definition urlD : string := "https://site.test/d".

Definition logo : DiscoveredAsset :=
  {| asset_url := "https://site.test/logo.png"; asset_type := image;
     sourcePage := seedUrl |}.

Definition siteScan (u : string) : Completion ScanResult :=
  if String.eqb u seedUrl then
    Ok {| r_textContent := "Welcome"; r_links := [urlB; urlC];
          r_assets := [logo]; r_title := "Home";
          r_htmlContent := "<h1>Welcome</h1>" |}
  else if String.eqb u urlB then
    Ok {| r_textContent := "About"; r_links := [urlD; seedUrl];
          r_assets := []; r_title := "About us";
          r_htmlContent := "<h1>About</h1>" |}
  else if String.eqb u urlC then
    Ok {| r_textContent := "Contact"; r_links := [];
          r_assets := []; r_title := "Contact";
          r_htmlContent := "<h1>Contact</h1>" |}
  else Throw {| message := "HTTP 404" |}.

(** A serializer without escapes or indentation. *)
Fixpoint renderJson (j : Json) : string :=
  match j with
  | JString s => dquote ++ s ++ dquote
  | JNumber n => String.concat "" (repeat "I" n)
  | JBool b => if b then "true" else "false"
  | JArray items => "[" ++ String.concat "," (map renderJson items) ++ "]"
  | JObject props =>
      "{" ++ String.concat ","
               (map (fun kv => match kv with
                               | (k, v) => dquote ++ k ++ dquote ++ ":" ++ renderJson v
                               end) props) ++ "}"
  end.

Definition textChunk (t : string) : GenerateContentResponse :=
  {| candidates := Some [{| content := Some {| parts := Some [{| text := Some t |}] |} |}];
     functionCalls := None |}.

Definition callChunk (calls : list FunctionCall) : GenerateContentResponse :=
  {| candidates := Some [{| content := Some {| parts := Some [{| text := None |}] |} |}];
     functionCalls := Some calls |}.

(** The site, with the user pressing stop during the calls [stops] names. *)
Definition site (stops : nat -> bool) : World :=
  {| scanPage := fun _ u => siteScan u;
     extractStructuredData := fun _ _ _ => JArray [];
     analyzeSeo := fun _ _ => JObject [];
     fetchAndEncodeImage := fun _ _ => Throw {| message := "HTTP 404" |};
     sendMessageStream := fun _ _ => Ok [textChunk "Noted."];
     JSON_stringify := fun j _ => renderJson j;
     userStops := stops;
     settleOrder := fun _ n => seq 0 n |}.

Definition neverStops : nat -> bool := fun _ => false.

(** The same world with the network down. *)
Definition offline : World :=
  {| scanPage := fun _ _ => Throw {| message := "net::ERR_FAILED" |};
     extractStructuredData := fun _ _ _ => JArray [];
     analyzeSeo := fun _ _ => JObject [];
     fetchAndEncodeImage := fun _ _ => Throw {| message := "net::ERR_FAILED" |};
     sendMessageStream := fun _ _ => Ok [textChunk "Noted."];
     JSON_stringify := fun j _ => renderJson j;
     userStops := neverStops;
     settleOrder := fun _ n => seq 0 n |}.

(** The state after the home page was submitted as the seed. *)
Definition seeded : App := handleInitialScan (site neverStops) seedUrl initialApp.

Definition toolCall (ref : nat) (toolName : string) (urls : list string)
  (u : string) : FunctionCall :=
  {| fc_ref := ref; name := toolName;
     args := {| arg_urls := urls; arg_url := u; arg_dataType := "products";
                arg_prompt := "" |} |}.

(** A link map as the handlers build it: one entry per key, and a pending
    record carries its own key as [url]. *)
Definition wfLinks (links : JsMap.t DiscoveredLink) : Prop :=
  NoDup (JsMap.keys links)
  /\ forall k l, In (k, l) links -> status l = pending -> url l = Some k.

(** The status a scan's settlement leaves on the scanned link. *)
Definition settledStatus (outcome : Completion ScanResult) : LinkStatus :=
  match outcome with
  | Ok _ => scanned
  | Throw _ => failed
  end.

(** The link of [u] exists and is no longer pending. *)
Definition leftPending (u : string) (links : JsMap.t DiscoveredLink) : bool :=
  match statusOf u links with
  | Some pending | None => false
  | Some _ => true
  end.

(** The specification's moves and two more: a scanned link may re-enter
    [scanning], as a failed one may, and a link may be created [scanning]. *)
Definition rescanStep (old new : option LinkStatus) : bool :=
  specStep old new
  || match old, new with
     | Some scanned, Some scanning | None, Some scanning => true
     | _, _ => false
     end.

(** A relation on statuses that has the moves every scan makes: a status
    may stay, a pending link may start scanning, a scanning link may
    settle, and an absent link may appear [pending]. *)
Definition follows (R : option LinkStatus -> option LinkStatus -> bool) : Prop :=
  (forall s, R s s = true)
  /\ R (Some pending) (Some scanning) = true
  /\ R (Some scanning) (Some scanned) = true
  /\ R (Some scanning) (Some failed) = true
  /\ R None (Some pending) = true.

(** A relation that moreover lets any status become [scanning], as a scan
    of an arbitrary URL needs. *)
Definition permits (R : option LinkStatus -> option LinkStatus -> bool) : Prop :=
  follows R /\ forall s, R s (Some scanning) = true.

(** One update of the link map that moves every URL by [R]. *)
Definition mapStep (R : option LinkStatus -> option LinkStatus -> bool)
  (m m' : JsMap.t DiscoveredLink) : Prop :=
  forall u, R (statusOf u m) (statusOf u m') = true.

Fixpoint chainFrom (R : option LinkStatus -> option LinkStatus -> bool)
  (m : JsMap.t DiscoveredLink) (new : list (JsMap.t DiscoveredLink)) : Prop :=
  match new with
  | [] => True
  | m' :: rest => mapStep R m m' /\ chainFrom R m' rest
  end.

(** From [st] to [st'] the link map went through the values [new], each
    reached from the one before by a [mapStep], and ended at the last. *)
Definition Steps (R : option LinkStatus -> option LinkStatus -> bool)
  (st st' : App) : Prop :=
  exists new,
    linksLog st' = (linksLog st ++ new)%list
    /\ chainFrom R (discoveredLinks st) new
    /\ discoveredLinks st' = last new (discoveredLinks st).

(** The URL lists that the scans of an operation run over satisfy [ok]. *)
Definition scansOnly (ok : list string -> Prop) (op : Op) : Prop :=
  match op with
  | OpFunctionCallResponse _ functionCall =>
      name functionCall = "scanPages" -> ok (arg_urls (args functionCall))
  | OpManualScan _ u => ok [u]
  | _ => True
  end.

(** An operation whose [scanPages] call, if it is one, names each URL
    once. *)
Definition tidy (op : Op) : Prop := scansOnly (@NoDup string) op.

(** The site on a bad day: only the call made at time [t] gets through. *)
Definition flaky (t : nat) : World :=
  {| scanPage := fun t' u => if Nat.eqb t' t then siteScan u
                             else Throw {| message := "timeout" |};
     extractStructuredData := fun _ _ _ => JArray [];
     analyzeSeo := fun _ _ => JObject [];
     fetchAndEncodeImage := fun _ _ => Throw {| message := "timeout" |};
     sendMessageStream := fun _ _ => Ok [textChunk "Noted."];
     JSON_stringify := fun j _ => renderJson j;
     userStops := neverStops;
     settleOrder := fun _ n => seq 0 n |}.

(** ** Reading a scan's effect on a record *)

(** The scans of one [scanPages] call with their outcomes: the scan of the
    [i]-th URL is the call made at time [t + i]. *)
Fixpoint scanOutcomes (W : World) (t : nat) (urls : list string)
  : list (string * Completion ScanResult) :=
  match urls with
  | [] => []
  | u :: rest => (u, scanPage W t u) :: scanOutcomes W (S t) rest
  end.

(** The record a link holds once its scan has settled, from the record it
    held before the scan ([None]: the URL was not in the map). *)
Definition settledRecord (o : Completion ScanResult)
  (old : option DiscoveredLink) : DiscoveredLink :=
  match o with
  | Ok r =>
      {| url := match old with Some l => url l | None => None end;
         status := scanned;
         title := Some (r_title r);
         textContent := Some (r_textContent r);
         htmlContent := Some (r_htmlContent r) |}
  | Throw _ =>
      {| url := match old with Some l => url l | None => None end;
         status := failed;
         title := match old with Some l => title l | None => None end;
         textContent := match old with Some l => textContent l | None => None end;
         htmlContent := match old with Some l => htmlContent l | None => None end |}
  end.

(** The record of a link whose scan is in flight. *)
Definition scanningRecord (old : option DiscoveredLink) : DiscoveredLink :=
  {| url := match old with Some l => url l | None => None end;
     status := scanning;
     title := match old with Some l => title l | None => None end;
     textContent := match old with Some l => textContent l | None => None end;
     htmlContent := match old with Some l => htmlContent l | None => None end |}.

(** [msg] is the proposal of [functionCall], the same object. *)
Definition isProposalOf (functionCall : FunctionCall) (msg : ChatMessage) : bool :=
  match msg with
  | TextChatMessage _ _ => false
  | FunctionCallChatMessage c => sameCall c functionCall
  end.

(** A turn the planner's side adds: a bot text or a proposal. *)
Definition fromBot (msg : ChatMessage) : bool :=
  match msg with
  | TextChatMessage _ bot => true
  | TextChatMessage _ user => false
  | FunctionCallChatMessage _ => true
  end.

(** ** Runs of the component

    The states the component reaches from its mount: by a seed submitted
    in the input stage, by an operation on the open frontier, or by the
    reset button. *)
Inductive Reachable (W : World) : App -> Prop :=
  | reach_mount : Reachable W initialApp
  | reach_seed (st : App) (u : string) :
      Reachable W st -> appStatus st = AppStatus.input ->
      Reachable W (handleInitialScan W u st)
  | reach_op (st : App) (op : Op) :
      Reachable W st -> appStatus st = AppStatus.chat ->
      Reachable W (runOp W st op)
  | reach_reset (st : App) :
      Reachable W st -> appStatus st = AppStatus.chat ->
      Reachable W (handleReset st)
  | reach_sitemap (st : App) (open : bool) :
      Reachable W st -> appStatus st = AppStatus.chat ->
      Reachable W (setIsSitemapOpen open st).

(** What no scan and no exchange with the planner touches: the stage, the
    error, the session and the current URL. *)
Definition sameShell (st st' : App) : Prop :=
  appStatus st' = appStatus st /\ error st' = error st
  /\ chatRef st' = chatRef st /\ currentUrlRef st' = currentUrlRef st.

(** The state of [handleInitialScan] when the seed scan has succeeded
    with [r] and the first message is about to be sent. *)
Definition afterSeedScan (u : string) (r : ScanResult) (st : App) : App :=
  setStatus AppStatus.chat
    (addDiscoveredAssets (r_assets r)
       (setDiscoveredLinks (fun _ => seedLinksMap u r)
          (logEvent (EvScanPage u)
             (logEvent EvCreateChatSession
                (set_chatRef (Some (clock st))
                   (set_currentUrlRef u
                      (setError None (setStatus AppStatus.scanning st)))))))).

(** The site with the planner out of reach: every message fails. *)
Definition plannerDown : World :=
  {| scanPage := fun _ u => siteScan u;
     extractStructuredData := fun _ _ _ => JArray [];
     analyzeSeo := fun _ _ => JObject [];
     fetchAndEncodeImage := fun _ _ => Throw {| message := "HTTP 404" |};
     sendMessageStream := fun _ _ => Throw {| message := "" |};
     JSON_stringify := fun j _ => renderJson j;
     userStops := neverStops;
     settleOrder := fun _ n => seq 0 n |}.

(** A text turn, of the user or of the planner. *)
Definition isText (msg : ChatMessage) : bool :=
  match msg with
  | TextChatMessage _ _ => true
  | FunctionCallChatMessage _ => false
  end.

(** [l'] is [l] with more at its end. *)
Definition extends {A : Type} (l l' : list A) : Prop :=
  exists more, l' = (l ++ more)%list.

(** A call to the conversation transport. *)
Definition isSend (e : Event) : bool :=
  match e with
  | EvSendMessageStream _ => true
  | _ => false
  end.

(** * Properties *)

(** ** The map *)

Lemma JsMap_get_set {V : Type} (k k' : string) (v : V) (m : JsMap.t V) :
  JsMap.get k' (JsMap.set k v m)
  = if String.eqb k k' then Some v else JsMap.get k' m.
Proof.
  induction m as [|[k0 v0] m IH]; simpl.
  - destruct (String.eqb_spec k k'); reflexivity.
  - destruct (String.eqb_spec k0 k) as [E|N]; simpl.
    + subst k0. destruct (String.eqb_spec k k'); reflexivity.
    + destruct (String.eqb_spec k0 k') as [E'|N'].
      * subst k0. destruct (String.eqb_spec k k'); [congruence | reflexivity].
      * exact IH.
Qed.

Lemma JsMap_get_set_eq {V : Type} (k : string) (v : V) (m : JsMap.t V) :
  JsMap.get k (JsMap.set k v m) = Some v.
Proof. rewrite JsMap_get_set, String.eqb_refl. reflexivity. Qed.

Lemma JsMap_get_set_ne {V : Type} (k k' : string) (v : V) (m : JsMap.t V) :
  k <> k' -> JsMap.get k' (JsMap.set k v m) = JsMap.get k' m.
Proof.
  intros N. rewrite JsMap_get_set.
  destruct (String.eqb_spec k k'); [contradiction | reflexivity].
Qed.

Lemma JsMap_keys_set {V : Type} (k : string) (v : V) (m : JsMap.t V) :
  JsMap.keys (JsMap.set k v m)
  = if JsMap.has k m then JsMap.keys m else (JsMap.keys m ++ [k])%list.
Proof.
  unfold JsMap.has. induction m as [|[k0 v0] m IH]; simpl.
  - reflexivity.
  - destruct (String.eqb_spec k0 k) as [E|N]; simpl.
    + subst k0. reflexivity.
    + rewrite IH. destruct (JsMap.get k m); reflexivity.
Qed.

Lemma JsMap_has_keys {V : Type} (k : string) (m : JsMap.t V) :
  JsMap.has k m = true <-> In k (JsMap.keys m).
Proof.
  unfold JsMap.has. induction m as [|[k0 v0] m IH]; simpl.
  - split; [discriminate | tauto].
  - destruct (String.eqb_spec k0 k) as [E|N].
    + split; auto.
    + rewrite IH. split; [auto | intros [E|H]; [contradiction | exact H]].
Qed.

Lemma JsMap_get_In {V : Type} (k : string) (v : V) (m : JsMap.t V) :
  NoDup (JsMap.keys m) -> In (k, v) m -> JsMap.get k m = Some v.
Proof.
  induction m as [|[k0 v0] m IH]; simpl; intros ND HIn.
  - contradiction.
  - inversion ND as [|? ? Hnotin ND']; subst.
    destruct HIn as [E|HIn].
    + inversion E; subst. rewrite String.eqb_refl. reflexivity.
    + destruct (String.eqb_spec k0 k) as [E|N].
      * subst k0. exfalso. apply Hnotin.
        change k with (fst (k, v)). apply in_map. exact HIn.
      * apply IH; assumption.
Qed.

(** [set] keeps the keys distinct. *)
Lemma JsMap_set_NoDup {V : Type} (k : string) (v : V) (m : JsMap.t V) :
  NoDup (JsMap.keys m) -> NoDup (JsMap.keys (JsMap.set k v m)).
Proof.
  intros ND. rewrite JsMap_keys_set.
  destruct (JsMap.has k m) eqn:H; [exact ND|].
  apply NoDup_app; [exact ND | constructor; [simpl; tauto | constructor] |].
  intros x Hx [E|[]]. subst x.
  apply JsMap_has_keys in Hx. congruence.
Qed.

(** ** The frontier store *)

Lemma get_updateLink (u u' : string) (s : LinkStatus) (data : PartialLink)
  (m : JsMap.t DiscoveredLink) :
  JsMap.get u' (updateLink u s data m)
  = if String.eqb u u' then Some (spreadLink (JsMap.get u m) s data)
    else JsMap.get u' m.
Proof. unfold updateLink. apply JsMap_get_set. Qed.

Lemma get_registerLink (linkUrl u : string) (m : JsMap.t DiscoveredLink) :
  JsMap.get u (registerLink linkUrl m)
  = match JsMap.get u m with
    | Some l => Some l
    | None => if String.eqb linkUrl u then Some (pendingLink linkUrl) else None
    end.
Proof.
  unfold registerLink, JsMap.has.
  destruct (JsMap.get linkUrl m) as [l0|] eqn:G; simpl.
  - destruct (JsMap.get u m) eqn:G'; [reflexivity|].
    destruct (String.eqb_spec linkUrl u); [congruence | reflexivity].
  - rewrite JsMap_get_set.
    destruct (String.eqb_spec linkUrl u) as [E|N].
    + subst u. rewrite G. reflexivity.
    + destruct (JsMap.get u m); reflexivity.
Qed.

Lemma discoveredLinks_registerDiscoveredLinks (links : list string) (st : App) :
  discoveredLinks (registerDiscoveredLinks links st)
  = fold_left (fun m linkUrl => registerLink linkUrl m) links (discoveredLinks st).
Proof.
  unfold registerDiscoveredLinks. revert st.
  induction links as [|x links IH]; intros st; simpl; [reflexivity|].
  rewrite IH. reflexivity.
Qed.

Lemma get_fold_registerLink (links : list string) (u : string)
  (m : JsMap.t DiscoveredLink) :
  JsMap.get u (fold_left (fun m' linkUrl => registerLink linkUrl m') links m)
  = match JsMap.get u m with
    | Some l => Some l
    | None => if existsb (String.eqb u) links then Some (pendingLink u) else None
    end.
Proof.
  revert m. induction links as [|x links IH]; intros m; simpl.
  - destruct (JsMap.get u m); reflexivity.
  - rewrite IH, get_registerLink.
    destruct (JsMap.get u m) as [l|]; [reflexivity|].
    rewrite (String.eqb_sym u x).
    destruct (String.eqb_spec x u) as [E|N]; simpl; [subst x|]; reflexivity.
Qed.

Lemma registerLink_present (x : string) (m : JsMap.t DiscoveredLink) :
  JsMap.has x m = true -> registerLink x m = m.
Proof. intros H. unfold registerLink. rewrite H. reflexivity. Qed.

Lemma fold_registerLink_present (links : list string) (m : JsMap.t DiscoveredLink) :
  (forall x, In x links -> JsMap.has x m = true) ->
  fold_left (fun m' linkUrl => registerLink linkUrl m') links m = m.
Proof.
  induction links as [|x links IH]; intros H; simpl; [reflexivity|].
  rewrite registerLink_present by (apply H; left; reflexivity).
  apply IH. intros y Hy. apply H. right. exact Hy.
Qed.

Lemma existsb_eqb_In (u : string) (links : list string) :
  In u links -> existsb (String.eqb u) links = true.
Proof.
  intros H. apply existsb_exists. exists u. split; [exact H|].
  apply String.eqb_refl.
Qed.

Lemma orElse_None {A : Type} (a : option A) : orElse a None = a.
Proof. destruct a; reflexivity. Qed.

(** C8.  Registering the outbound links of a scanned page leaves every
    record already in the link map as it is (status, title and content
    included) and inserts exactly the URLs that were absent, each as a
    pending link titled "Unknown Title"; registering the same links a second
    time changes nothing.  The same holds for the map the initial scan
    builds around its seed. *)
Theorem registerDiscoveredLinks_idempotent
  (links : list string) (st : App) (u : string) :
  JsMap.get u (discoveredLinks (registerDiscoveredLinks links st))
  = match JsMap.get u (discoveredLinks st) with
    | Some l => Some l
    | None =>
        if existsb (String.eqb u) links
        then Some {| url := Some u; status := pending;
                     title := Some "Unknown Title";
                     textContent := None; htmlContent := None |}
        else None
    end
  /\ discoveredLinks (registerDiscoveredLinks links (registerDiscoveredLinks links st))
     = discoveredLinks (registerDiscoveredLinks links st)
  /\ (forall (seed : string) (r : ScanResult),
        JsMap.get u (seedLinksMap seed r)
        = if String.eqb seed u
          then Some {| url := Some seed; status := scanned;
                       title := Some (r_title r);
                       textContent := Some (r_textContent r);
                       htmlContent := Some (r_htmlContent r) |}
          else if existsb (String.eqb u) (r_links r)
               then Some {| url := Some u; status := pending;
                            title := Some "Unknown Title";
                            textContent := None; htmlContent := None |}
               else None).
Proof.
  repeat split.
  - rewrite discoveredLinks_registerDiscoveredLinks, get_fold_registerLink.
    reflexivity.
  - rewrite (discoveredLinks_registerDiscoveredLinks links (registerDiscoveredLinks links st)).
    apply fold_registerLink_present. intros x Hx.
    unfold JsMap.has.
    rewrite discoveredLinks_registerDiscoveredLinks, get_fold_registerLink.
    destruct (JsMap.get x (discoveredLinks st)); [reflexivity|].
    rewrite existsb_eqb_In by exact Hx. reflexivity.
  - intros seed r. unfold seedLinksMap.
    rewrite get_fold_registerLink. simpl.
    destruct (String.eqb seed u); reflexivity.
Qed.

Lemma get_addAsset (a : DiscoveredAsset) (u : string) (m : JsMap.t DiscoveredAsset) :
  JsMap.get u (addAsset m a)
  = match JsMap.get u m with
    | Some x => Some x
    | None => if String.eqb (asset_url a) u then Some a else None
    end.
Proof.
  unfold addAsset, JsMap.has.
  destruct (JsMap.get (asset_url a) m) as [x|] eqn:G; simpl.
  - destruct (JsMap.get u m) eqn:G'; [reflexivity|].
    destruct (String.eqb_spec (asset_url a) u); [congruence | reflexivity].
  - rewrite JsMap_get_set.
    destruct (String.eqb_spec (asset_url a) u) as [E|N].
    + rewrite <- E, G. reflexivity.
    + destruct (JsMap.get u m); reflexivity.
Qed.

Lemma get_addAssets (assets : list DiscoveredAsset) (u : string)
  (m : JsMap.t DiscoveredAsset) :
  JsMap.get u (addAssets assets m)
  = match JsMap.get u m with
    | Some x => Some x
    | None => find (fun a => String.eqb (asset_url a) u) assets
    end.
Proof.
  unfold addAssets. revert m.
  induction assets as [|a assets IH]; intros m; simpl.
  - destruct (JsMap.get u m); reflexivity.
  - rewrite IH, get_addAsset.
    destruct (JsMap.get u m); [reflexivity|].
    destruct (String.eqb (asset_url a) u); reflexivity.
Qed.

(** C9.  Asset registration is first-write-wins: an asset URL already in
    the asset map keeps its record, source page included, whatever kind or
    source page the newly registered asset has; an absent URL receives the
    first asset of the batch that carries it. *)
Theorem addDiscoveredAssets_first_write_wins
  (assets : list DiscoveredAsset) (st : App) (u : string) :
  JsMap.get u (discoveredAssets (addDiscoveredAssets assets st))
  = match JsMap.get u (discoveredAssets st) with
    | Some original => Some original
    | None => find (fun a => String.eqb (asset_url a) u) assets
    end.
Proof. simpl. apply get_addAssets. Qed.



(** ** Turn accumulation *)

Lemma append_empty_r (s : string) : s ++ "" = s.
Proof. induction s as [|c s IH]; simpl; [reflexivity | rewrite IH; reflexivity]. Qed.

Lemma append_assoc (a b c : string) : (a ++ b) ++ c = a ++ (b ++ c).
Proof. induction a as [|x a IH]; simpl; [reflexivity | rewrite IH; reflexivity]. Qed.

Lemma join_app (l1 l2 : list string) :
  fold_right append "" (l1 ++ l2)
  = fold_right append "" l1 ++ fold_right append "" l2.
Proof.
  induction l1 as [|x l1 IH]; simpl; [reflexivity|].
  rewrite IH, append_assoc. reflexivity.
Qed.

Lemma fold_addPartText (ps : list Part) (acc : string) :
  fold_left addPartText ps acc
  = acc ++ fold_right append ""
             (flat_map (fun part => match text part with Some t => [t] | None => [] end) ps).
Proof.
  revert acc. induction ps as [|p ps IH]; intros acc; simpl.
  - symmetry. apply append_empty_r.
  - rewrite IH. unfold addPartText.
    destruct (text p) as [t|]; simpl; [|reflexivity].
    destruct t as [|c t]; simpl.
    + reflexivity.
    + rewrite append_assoc. reflexivity.
Qed.

Lemma accumulateChunk_text (acc : string * option (list FunctionCall))
  (chunk : GenerateContentResponse) :
  fst (accumulateChunk acc chunk)
  = fst acc ++ fold_right append "" (chunkFragments chunk).
Proof.
  unfold accumulateChunk, chunkFragments. simpl.
  destruct (firstCandidateParts chunk) as [ps|].
  - apply fold_addPartText.
  - simpl. symmetry. apply append_empty_r.
Qed.

Lemma fold_accumulateChunk (rs : list GenerateContentResponse)
  (acc : string * option (list FunctionCall)) :
  fold_left accumulateChunk rs acc
  = (fst acc ++ streamText rs,
     match lastCalls rs with Some calls => Some calls | None => snd acc end).
Proof.
  revert acc. induction rs as [|chunk rs IH]; intros acc; simpl.
  - unfold streamText. simpl. rewrite append_empty_r. destruct acc; reflexivity.
  - rewrite IH, accumulateChunk_text. unfold streamText. simpl.
    rewrite join_app, append_assoc. f_equal.
    destruct (lastCalls rs); [reflexivity|].
    unfold accumulateChunk. simpl.
    destruct (functionCalls chunk); reflexivity.
Qed.

Lemma accumulateStream_spec (rs : list GenerateContentResponse) :
  accumulateStream rs = (streamText rs, lastCalls rs).
Proof.
  unfold accumulateStream. rewrite fold_accumulateChunk. simpl.
  destruct (lastCalls rs); reflexivity.
Qed.

(** A chunk that carries a tool-call list, followed only by chunks that
    carry none, decides the captured list, whatever came before it. *)
Lemma lastCalls_last_carrier
  (pre post : list GenerateContentResponse) (chunk : GenerateContentResponse)
  (calls : list FunctionCall) :
  functionCalls chunk = Some calls ->
  Forall (fun c => functionCalls c = None) post ->
  lastCalls (pre ++ chunk :: post) = Some calls.
Proof.
  intros H F.
  assert (P : lastCalls post = None).
  { induction F as [|c post Hc _ IH]; simpl; [reflexivity|].
    rewrite IH. exact Hc. }
  induction pre as [|c pre IH]; simpl.
  - rewrite P. exact H.
  - rewrite IH. reflexivity.
Qed.

(** C1.  For a stream consumed to its end, the accumulated text is the
    concatenation of all textual fragments of all chunks in chunk order, and
    the captured tool-call list is that of the last chunk carrying one (a
    later list replaces an earlier one).  The transcript then grows by: a
    text turn holding the trimmed text when it is not empty; a proposal
    turn holding the first call of the captured list when a list was
    captured; the fixed empty-response notice when neither happened.  At
    least one turn is added. *)
Theorem processStreamAndAddMessages_turns
  (responseStream : list GenerateContentResponse) (st : App) :
  accumulateStream responseStream
  = (streamText responseStream, lastCalls responseStream)
  /\ chatHistory (processStreamAndAddMessages responseStream st)
     = (chatHistory st
        ++ (if truthy (trim (streamText responseStream))
            then [TextChatMessage (trim (streamText responseStream)) bot]
            else [])
        ++ (match lastCalls responseStream with
            | Some calls => [FunctionCallChatMessage (hd_error calls)]
            | None => []
            end)
        ++ (match trim (streamText responseStream), lastCalls responseStream with
            | EmptyString, None => [TextChatMessage emptyResponseNotice bot]
            | _, _ => []
            end))%list
  /\ length (chatHistory st)
     < length (chatHistory (processStreamAndAddMessages responseStream st)).
Proof.
  assert (E := accumulateStream_spec responseStream).
  assert (H : chatHistory (processStreamAndAddMessages responseStream st)
     = (chatHistory st
        ++ (if truthy (trim (streamText responseStream))
            then [TextChatMessage (trim (streamText responseStream)) bot]
            else [])
        ++ (match lastCalls responseStream with
            | Some calls => [FunctionCallChatMessage (hd_error calls)]
            | None => []
            end)
        ++ (match trim (streamText responseStream), lastCalls responseStream with
            | EmptyString, None => [TextChatMessage emptyResponseNotice bot]
            | _, _ => []
            end))%list).
  { unfold processStreamAndAddMessages. rewrite E. simpl.
    destruct (trim (streamText responseStream)) as [|c t];
      destruct (lastCalls responseStream) as [[|f fs]|]; simpl;
      rewrite <- ?app_assoc, ?app_nil_r; reflexivity. }
  split; [exact E | split; [exact H|]].
  rewrite H, !length_app.
  destruct (trim (streamText responseStream));
    destruct (lastCalls responseStream); simpl; lia.
Qed.

(** The scenarios of the specification. *)
Example two_text_chunks :
  chatHistory (processStreamAndAddMessages
                 [textChunk "Hello"; textChunk " world"] initialApp)
  = [TextChatMessage "Hello world" bot].
Proof. reflexivity. Qed.

Example nothing_in_the_stream :
  chatHistory (processStreamAndAddMessages [] initialApp)
  = [TextChatMessage emptyResponseNotice bot]
  /\ chatHistory (processStreamAndAddMessages [textChunk "  "] initialApp)
     = [TextChatMessage emptyResponseNotice bot].
Proof. split; reflexivity. Qed.

Example two_calls_in_the_final_chunk :
  chatHistory (processStreamAndAddMessages
                 [textChunk " ";
                  callChunk [toolCall 1 "scanPages" [urlB] "";
                             toolCall 2 "performSeoAnalysis" [] urlB]]
                 initialApp)
  = [FunctionCallChatMessage (Some (toolCall 1 "scanPages" [urlB] ""))].
Proof. reflexivity. Qed.

Example later_call_list_replaces_earlier :
  chatHistory (processStreamAndAddMessages
                 [callChunk [toolCall 1 "scanPages" [urlB] ""];
                  textChunk "Scanning. ";
                  callChunk [toolCall 2 "scanPages" [urlC] ""];
                  textChunk "Done.  "]
                 initialApp)
  = [TextChatMessage "Scanning. Done." bot;
     FunctionCallChatMessage (Some (toolCall 2 "scanPages" [urlC] ""))].
Proof. reflexivity. Qed.

(** ** Sending a payload and reading the reply *)

Lemma processStream_keeps (rs : list GenerateContentResponse) (st : App) :
  discoveredLinks (processStreamAndAddMessages rs st) = discoveredLinks st
  /\ discoveredAssets (processStreamAndAddMessages rs st) = discoveredAssets st
  /\ trace (processStreamAndAddMessages rs st) = trace st
  /\ linksLog (processStreamAndAddMessages rs st) = linksLog st.
Proof.
  unfold processStreamAndAddMessages.
  destruct (truthy (trim (fst (accumulateStream rs))));
    destruct (snd (accumulateStream rs)); simpl; repeat split; reflexivity.
Qed.

Lemma sendAndProcess_keeps (W : World) (p : SendPayload) (st : App) :
  discoveredLinks (stateOf (sendAndProcess W p st)) = discoveredLinks st
  /\ discoveredAssets (stateOf (sendAndProcess W p st)) = discoveredAssets st
  /\ trace (stateOf (sendAndProcess W p st)) = (trace st ++ [EvSendMessageStream p])%list
  /\ linksLog (stateOf (sendAndProcess W p st)) = linksLog st.
Proof.
  unfold sendAndProcess.
  destruct (sendMessageStream W (clock st) p) as [rs|e]; simpl.
  - destruct (processStream_keeps rs (logEvent (EvSendMessageStream p) st))
      as (H1 & H2 & H3 & H4).
    rewrite H1, H2, H3, H4. repeat split; reflexivity.
  - repeat split; reflexivity.
Qed.

(** ** Initial scan *)

(** C4.  When the seed scan fails (it is the call made right after the
    session object is created, at time [S (clock st)]) the session does not
    open: the status is back at [input], an error message (never empty) is
    set for display, and the link map, the asset map and the transcript are
    what they were before; nothing was sent to the planner. *)
Theorem handleInitialScan_seed_failure
  (W : World) (u : string) (st : App) (e : JsError) :
  scanPage W (S (clock st)) u = Throw e ->
  appStatus (handleInitialScan W u st) = AppStatus.input
  /\ error (handleInitialScan W u st)
     = Some (if truthy (message e) then message e
             else "An unknown error occurred during the initial scan.")
  /\ error (handleInitialScan W u st) <> Some ""
  /\ discoveredLinks (handleInitialScan W u st) = discoveredLinks st
  /\ discoveredAssets (handleInitialScan W u st) = discoveredAssets st
  /\ linksLog (handleInitialScan W u st) = linksLog st
  /\ chatHistory (handleInitialScan W u st) = chatHistory st
  /\ trace (handleInitialScan W u st)
     = (trace st ++ [EvCreateChatSession; EvScanPage u])%list.
Proof.
  intros H. unfold handleInitialScan.
  replace (clock (logEvent EvCreateChatSession _)) with (S (clock st)).
  2:{ unfold clock. simpl. rewrite length_app. simpl. lia. }
  rewrite H. simpl. repeat split.
  - destruct (message e); simpl; discriminate.
  - rewrite <- app_assoc. reflexivity.
Qed.

Lemma handleInitialScan_seed_failure_witness :
  appStatus (handleInitialScan offline seedUrl initialApp) = AppStatus.input
  /\ error (handleInitialScan offline seedUrl initialApp) = Some "net::ERR_FAILED"
  /\ discoveredLinks (handleInitialScan offline seedUrl initialApp) = [].
Proof.
  destruct (handleInitialScan_seed_failure offline seedUrl initialApp
              {| message := "net::ERR_FAILED" |} eq_refl)
    as (H1 & H2 & _ & H4 & _).
  split; [exact H1 | split; [exact H2 | exact H4]].
Defined.

(** The seeded frontier: the home page scanned, its two links pending. *)
Example seeded_frontier :
  map (fun kv => (fst kv, status (snd kv))) (discoveredLinks seeded)
  = [(seedUrl, scanned); (urlB, pending); (urlC, pending)]
  /\ JsMap.keys (discoveredAssets seeded) = ["https://site.test/logo.png"]
  /\ appStatus seeded = AppStatus.chat
  /\ chatHistory seeded = [TextChatMessage "Noted." bot].
Proof. repeat split. Qed.

(** ** Tool dispatch *)

Lemma scannedMarkup_None (links : JsMap.t DiscoveredLink) (u : string) :
  ~ scannedWithMarkup links u -> scannedMarkup (JsMap.get u links) = None.
Proof.
  intros H. unfold scannedMarkup.
  destruct (JsMap.get u links) as [l|] eqn:G; [|reflexivity].
  destruct (status l) eqn:S; simpl; try reflexivity.
  destruct (htmlContent l) as [h|] eqn:Hh; [|reflexivity].
  destruct h as [|c h]; simpl; [reflexivity|].
  exfalso. apply H. exists l, (String c h). repeat split; try assumption.
  discriminate.
Qed.

(** C5.  When the link of the named URL is not scanned with markup present
    (it is absent, pending, scanning, failed, or scanned with no markup or
    empty markup), an approved [extractDataFromPage] or
    [performSeoAnalysis] calls no analyzer and changes no frontier: the
    result sent to the planner is the structured failure with
    [success: false], and the handler fails only if the transport does. *)
Theorem analysis_tools_require_scan
  (W : World) (functionCall : FunctionCall) (st : App) :
  name functionCall = "extractDataFromPage"
  \/ name functionCall = "performSeoAnalysis" ->
  ~ scannedWithMarkup (discoveredLinks st) (arg_url (args functionCall)) ->
  handleFunctionCallResponse W true functionCall st
  = match chatRef st with
    | Some _ =>
        sendAndProcess W
          (MessageFunctionResponse (name functionCall)
             (JSON_stringify W
                (JObject
                   [("success", JBool false);
                    ("error",
                     JString ("Page " ++ arg_url (args functionCall)
                              ++ " has not been scanned yet. Please use scanPages first."))])
                None))
          (withoutProposal functionCall st)
    | None => Resolved (withoutProposal functionCall st)
    end
  /\ (forall e, In e (trace (stateOf (handleFunctionCallResponse W true functionCall st))) ->
      In e (trace st) \/ exists p, e = EvSendMessageStream p)
  /\ discoveredLinks (stateOf (handleFunctionCallResponse W true functionCall st))
     = discoveredLinks st
  /\ discoveredAssets (stateOf (handleFunctionCallResponse W true functionCall st))
     = discoveredAssets st
  /\ (forall e st',
        handleFunctionCallResponse W true functionCall st = Rejected e st' ->
        exists p, sendMessageStream W (clock st) p = Throw e).
Proof.
  intros Hname Hnot.
  assert (E : handleFunctionCallResponse W true functionCall st
    = match chatRef st with
      | Some _ =>
        sendAndProcess W
          (MessageFunctionResponse (name functionCall)
             (notScannedPayload W (arg_url (args functionCall))))
          (withoutProposal functionCall st)
      | None => Resolved (withoutProposal functionCall st)
      end).
  { unfold handleFunctionCallResponse, dispatchToolCall. simpl negb. cbv iota.
    rewrite (scannedMarkup_None _ _ Hnot).
    destruct Hname as [-> | ->]; simpl; destruct (chatRef st); reflexivity. }
  split; [exact E|]. rewrite E. clear E.
  destruct (chatRef st) as [session|].
  - destruct (sendAndProcess_keeps W
      (MessageFunctionResponse (name functionCall)
         (notScannedPayload W (arg_url (args functionCall))))
      (withoutProposal functionCall st)) as (H1 & H2 & H3 & _).
    repeat split.
    + intros e He. rewrite H3 in He. apply in_app_or in He.
      destruct He as [He|[He|[]]]; [left; exact He | right; eauto].
    + rewrite H1. reflexivity.
    + rewrite H2. reflexivity.
    + intros e st'. unfold sendAndProcess.
      change (clock (withoutProposal functionCall st)) with (clock st).
      destruct (sendMessageStream W (clock st) _) eqn:S; [discriminate|].
      intros R. inversion R; subst. eauto.
  - simpl. repeat split; try (intros; discriminate). intros e He. left. exact He.
Qed.

Lemma analysis_tools_require_scan_witness :
  statusOf urlB (discoveredLinks seeded) = Some pending
  /\ discoveredLinks
       (stateOf (handleFunctionCallResponse (site neverStops) true
                   (toolCall 7 "extractDataFromPage" [] urlB) seeded))
     = discoveredLinks seeded.
Proof.
  split; [reflexivity|].
  apply (analysis_tools_require_scan (site neverStops)
           (toolCall 7 "extractDataFromPage" [] urlB) seeded).
  - left. reflexivity.
  - intros (l & h & G & S & _). vm_compute in G.
    inversion G; subst l. discriminate S.
Defined.

(** A pending page is asked for data: the planner receives the failure,
    and the only collaborator called is the transport. *)
Example extract_on_pending_page :
  skipn (length (trace seeded))
    (trace (stateOf (handleFunctionCallResponse (site neverStops) true
                       (toolCall 7 "extractDataFromPage" [] urlB) seeded)))
  = [EvSendMessageStream
       (MessageFunctionResponse "extractDataFromPage"
          (renderJson
             (JObject
                [("success", JBool false);
                 ("error",
                  JString "Page https://site.test/b has not been scanned yet. Please use scanPages first.")])))].
Proof. reflexivity. Qed.

Lemma dispatch_unknown_name (W : World) (links : JsMap.t DiscoveredLink)
  (functionCall : FunctionCall) (st : App) :
  ~ In (name functionCall) toolNames ->
  dispatchToolCall W links functionCall st
  = {| d_state := st; resultPayload := ""; userMessage := "" |}.
Proof.
  intros H. unfold dispatchToolCall.
  repeat match goal with
  | |- context [String.eqb (name functionCall) ?s] =>
      destruct (String.eqb_spec (name functionCall) s) as [E|_];
      [exfalso; apply H; rewrite E; simpl; tauto|]
  end.
  reflexivity.
Qed.

(** C10.  An approved tool call whose name is none of the five known names
    changes no frontier and calls no collaborator other than the
    transport: with a session open, the one thing the handler does is send
    the planner a tool result whose payload is the empty string. *)
Theorem unknown_tool_sends_empty_result
  (W : World) (functionCall : FunctionCall) (st : App) (session : nat) :
  ~ In (name functionCall) toolNames ->
  chatRef st = Some session ->
  handleFunctionCallResponse W true functionCall st
  = sendAndProcess W (MessageFunctionResponse (name functionCall) "")
      (withoutProposal functionCall st)
  /\ trace (stateOf (handleFunctionCallResponse W true functionCall st))
     = (trace st
        ++ [EvSendMessageStream (MessageFunctionResponse (name functionCall) "")])%list
  /\ discoveredLinks (stateOf (handleFunctionCallResponse W true functionCall st))
     = discoveredLinks st
  /\ discoveredAssets (stateOf (handleFunctionCallResponse W true functionCall st))
     = discoveredAssets st
  /\ linksLog (stateOf (handleFunctionCallResponse W true functionCall st))
     = linksLog st.
Proof.
  intros Hname Hchat.
  assert (E : handleFunctionCallResponse W true functionCall st
    = sendAndProcess W (MessageFunctionResponse (name functionCall) "")
        (withoutProposal functionCall st)).
  { unfold handleFunctionCallResponse. simpl negb. cbv iota.
    rewrite (dispatch_unknown_name _ _ _ _ Hname). simpl.
    rewrite Hchat. reflexivity. }
  split; [exact E|]. rewrite E.
  destruct (sendAndProcess_keeps W
      (MessageFunctionResponse (name functionCall) "")
      (withoutProposal functionCall st)) as (H1 & H2 & H3 & H4).
  rewrite H1, H2, H3, H4. repeat split; reflexivity.
Qed.

Lemma unknown_tool_sends_empty_result_witness :
  trace (stateOf (handleFunctionCallResponse (site neverStops) true
                    (toolCall 8 "deleteSite" [] urlB) seeded))
  = (trace seeded
     ++ [EvSendMessageStream (MessageFunctionResponse "deleteSite" "")])%list.
Proof.
  apply (unknown_tool_sends_empty_result (site neverStops)
           (toolCall 8 "deleteSite" [] urlB) seeded 0).
  - simpl. intros [H|[H|[H|[H|[H|[]]]]]]; discriminate H.
  - reflexivity.
Defined.

(** ** What a scan's settlement touches *)

Lemma registerDiscoveredLinks_keeps (links : list string) (st : App) :
  trace (registerDiscoveredLinks links st) = trace st
  /\ abortControllers (registerDiscoveredLinks links st) = abortControllers st
  /\ fullScanAbortController (registerDiscoveredLinks links st)
     = fullScanAbortController st
  /\ chatRef (registerDiscoveredLinks links st) = chatRef st
  /\ discoveredAssets (registerDiscoveredLinks links st) = discoveredAssets st
  /\ chatHistory (registerDiscoveredLinks links st) = chatHistory st.
Proof.
  unfold registerDiscoveredLinks. revert st.
  induction links as [|x links IH]; intros st; simpl.
  - repeat split.
  - destruct (IH (setDiscoveredLinks (registerLink x) st))
      as (H1 & H2 & H3 & H4 & H5 & H6).
    rewrite H1, H2, H3, H4, H5, H6. repeat split.
Qed.

Lemma settleScan_keeps (u : string) (o : Completion ScanResult) (st : App) :
  trace (settleScan u o st) = trace st
  /\ abortControllers (settleScan u o st) = abortControllers st
  /\ fullScanAbortController (settleScan u o st) = fullScanAbortController st
  /\ chatRef (settleScan u o st) = chatRef st
  /\ chatHistory (settleScan u o st) = chatHistory st.
Proof.
  destruct o as [r|e]; simpl.
  - destruct (registerDiscoveredLinks_keeps (r_links r)
                (updateLinkStatus u scanned (scannedData r) st))
      as (H1 & H2 & H3 & H4 & _ & H6).
    rewrite H1, H2, H3, H4, H6. repeat split.
  - repeat split.
Qed.

Lemma discoveredLinks_settleScan (u : string) (o : Completion ScanResult) (st : App) :
  discoveredLinks (settleScan u o st)
  = match o with
    | Ok r =>
        fold_left (fun m linkUrl => registerLink linkUrl m) (r_links r)
          (updateLink u scanned (scannedData r) (discoveredLinks st))
    | Throw _ => updateLink u failed noData (discoveredLinks st)
    end.
Proof.
  destruct o as [r|e]; simpl; [|reflexivity].
  rewrite discoveredLinks_registerDiscoveredLinks. reflexivity.
Qed.

(** The scanned link ends [scanned] or [failed]. *)
Lemma statusOf_settleScan_same (u : string) (o : Completion ScanResult) (st : App) :
  statusOf u (discoveredLinks (settleScan u o st)) = Some (settledStatus o).
Proof.
  unfold statusOf. rewrite discoveredLinks_settleScan.
  destruct o as [r|e]; simpl.
  - rewrite get_fold_registerLink, get_updateLink, String.eqb_refl. reflexivity.
  - rewrite get_updateLink, String.eqb_refl. reflexivity.
Qed.

(** A link that is present and is not the scanned one is left alone. *)
Lemma get_settleScan_other (u c : string) (o : Completion ScanResult) (st : App) :
  c <> u -> JsMap.get c (discoveredLinks st) <> None ->
  JsMap.get c (discoveredLinks (settleScan u o st))
  = JsMap.get c (discoveredLinks st).
Proof.
  intros N P. rewrite discoveredLinks_settleScan.
  assert (E : forall s d, JsMap.get c (updateLink u s d (discoveredLinks st))
                          = JsMap.get c (discoveredLinks st)).
  { intros s d. rewrite get_updateLink.
    destruct (String.eqb_spec u c); [congruence | reflexivity]. }
  destruct o as [r|e].
  - rewrite get_fold_registerLink, E.
    destruct (JsMap.get c (discoveredLinks st)); [reflexivity | congruence].
  - apply E.
Qed.

Lemma nth_abortAt (a : nat) (store : list bool) :
  a < length store -> nth a (abortAt a store) false = true.
Proof.
  revert a. induction store as [|b store IH]; intros a H; simpl in H.
  - lia.
  - destruct a as [|a]; simpl; [reflexivity|]. apply IH. lia.
Qed.

Lemma length_abortAt (a : nat) (store : list bool) :
  length (abortAt a store) = length store.
Proof.
  revert a. induction store as [|b store IH]; intros a; simpl; [reflexivity|].
  destruct a; simpl; [reflexivity | rewrite IH; reflexivity].
Qed.

(** ** The pending URLs of a well-formed map *)

Lemma pendingUrls_cons (k : string) (l : DiscoveredLink) (m : JsMap.t DiscoveredLink) :
  pendingUrls ((k, l) :: m)
  = ((if LinkStatus_eqb (status l) pending
      then match url l with Some u => [u] | None => [] end
      else []) ++ pendingUrls m)%list.
Proof.
  unfold pendingUrls. simpl.
  destruct (LinkStatus_eqb (status l) pending); reflexivity.
Qed.

Lemma LinkStatus_eqb_eq (a b : LinkStatus) : LinkStatus_eqb a b = true <-> a = b.
Proof. destruct a, b; simpl; split; congruence. Qed.

Lemma wfLinks_tail (k : string) (l : DiscoveredLink) (m : JsMap.t DiscoveredLink) :
  wfLinks ((k, l) :: m) -> wfLinks m.
Proof.
  intros [ND H]. split.
  - inversion ND; assumption.
  - intros k' l' HIn. apply H. right. exact HIn.
Qed.

Lemma pendingUrls_In (m : JsMap.t DiscoveredLink) (c : string) :
  wfLinks m -> In c (pendingUrls m) ->
  exists l, In (c, l) m /\ status l = pending.
Proof.
  induction m as [|[k l] m IH]; intros WF HIn.
  - contradiction.
  - rewrite pendingUrls_cons in HIn. apply in_app_or in HIn.
    destruct HIn as [HIn|HIn].
    + destruct (LinkStatus_eqb (status l) pending) eqn:E; [|contradiction].
      apply LinkStatus_eqb_eq in E.
      destruct WF as [_ H]. rewrite (H k l (or_introl eq_refl) E) in HIn.
      destruct HIn as [<-|[]]. exists l. split; [left; reflexivity | exact E].
    + destruct (IH (wfLinks_tail _ _ _ WF) HIn) as (l' & H1 & H2).
      exists l'. split; [right; exact H1 | exact H2].
Qed.

Lemma pendingUrls_NoDup (m : JsMap.t DiscoveredLink) :
  wfLinks m -> NoDup (pendingUrls m).
Proof.
  induction m as [|[k l] m IH]; intros WF.
  - constructor.
  - rewrite pendingUrls_cons.
    assert (WF' := wfLinks_tail _ _ _ WF). specialize (IH WF').
    destruct (LinkStatus_eqb (status l) pending) eqn:E; [|exact IH].
    apply LinkStatus_eqb_eq in E.
    destruct WF as [ND H]. rewrite (H k l (or_introl eq_refl) E). simpl.
    constructor; [|exact IH].
    intros HIn. destruct (pendingUrls_In m k WF' HIn) as (l' & H1 & _).
    inversion ND as [|? ? Hnotin _]; subst. apply Hnotin.
    change k with (fst (k, l')). apply in_map. exact H1.
Qed.

Lemma pendingUrls_pending (m : JsMap.t DiscoveredLink) (c : string) :
  wfLinks m -> In c (pendingUrls m) -> statusOf c m = Some pending.
Proof.
  intros WF HIn. destruct (pendingUrls_In m c WF HIn) as (l & H1 & H2).
  unfold statusOf. rewrite (JsMap_get_In c l m (proj1 WF) H1), H2. reflexivity.
Qed.

(** ** One turn of the bulk scan *)

Lemma bulkScanStep_keeps (W : World) (u : string) (st : App) :
  trace (bulkScanStep W u st) = (trace st ++ [EvScanPage u])%list
  /\ fullScanAbortController (bulkScanStep W u st) = fullScanAbortController st
  /\ abortControllers (bulkScanStep W u st)
     = (if userStops W (clock st)
        then match fullScanAbortController st with
             | Some a => abortAt a (abortControllers st)
             | None => abortControllers st
             end
        else abortControllers st)
  /\ chatRef (bulkScanStep W u st) = chatRef st
  /\ chatHistory (bulkScanStep W u st) = chatHistory st.
Proof.
  unfold bulkScanStep.
  change (clock (updateLinkStatus u scanning noData st)) with (clock st).
  destruct (userStops W (clock st)).
  - match goal with |- context [settleScan ?a ?o ?s] =>
      destruct (settleScan_keeps a o s) as (H1 & H2 & H3 & H4 & H5) end.
    rewrite H1, H2, H3, H4, H5. unfold handleStopFullScan. simpl.
    destruct (fullScanAbortController st) eqn:C; simpl; rewrite ?C; repeat split.
  - match goal with |- context [settleScan ?a ?o ?s] =>
      destruct (settleScan_keeps a o s) as (H1 & H2 & H3 & H4 & H5) end.
    rewrite H1, H2, H3, H4, H5. simpl. repeat split.
Qed.

Lemma trace_bulkScanStep (W : World) (u : string) (st : App) :
  trace (bulkScanStep W u st) = (trace st ++ [EvScanPage u])%list.
Proof. apply bulkScanStep_keeps. Qed.

Lemma clock_bulkScanStep (W : World) (u : string) (st : App) :
  clock (bulkScanStep W u st) = S (clock st).
Proof. unfold clock. rewrite trace_bulkScanStep, length_app. simpl. lia. Qed.

Lemma controller_bulkScanStep (W : World) (u : string) (st : App) :
  fullScanAbortController (bulkScanStep W u st) = fullScanAbortController st
  /\ length (abortControllers (bulkScanStep W u st)) = length (abortControllers st).
Proof.
  destruct (bulkScanStep_keeps W u st) as (_ & H2 & H3 & _).
  split; [exact H2|]. rewrite H3.
  destruct (userStops W (clock st)); [|reflexivity].
  destruct (fullScanAbortController st); [apply length_abortAt | reflexivity].
Qed.

Lemma discoveredLinks_bulkScanStep (W : World) (u : string) (st : App) :
  discoveredLinks (bulkScanStep W u st)
  = discoveredLinks
      (settleScan u (scanPage W (clock st) u)
                  (updateLinkStatus u scanning noData st)).
Proof.
  unfold bulkScanStep. rewrite !discoveredLinks_settleScan.
  unfold handleStopFullScan.
  destruct (userStops W _); simpl; [|reflexivity].
  destruct (fullScanAbortController st); reflexivity.
Qed.

Lemma statusOf_bulkScanStep_same (W : World) (u : string) (st : App) :
  statusOf u (discoveredLinks (bulkScanStep W u st))
  = Some (settledStatus (scanPage W (clock st) u)).
Proof. rewrite discoveredLinks_bulkScanStep. apply statusOf_settleScan_same. Qed.

Lemma get_bulkScanStep_other (W : World) (u c : string) (st : App) :
  c <> u -> JsMap.get c (discoveredLinks st) <> None ->
  JsMap.get c (discoveredLinks (bulkScanStep W u st))
  = JsMap.get c (discoveredLinks st).
Proof.
  intros N P. rewrite discoveredLinks_bulkScanStep.
  assert (E : JsMap.get c (discoveredLinks (updateLinkStatus u scanning noData st))
              = JsMap.get c (discoveredLinks st)).
  { simpl. rewrite get_updateLink.
    destruct (String.eqb_spec u c); [congruence | reflexivity]. }
  rewrite get_settleScan_other; [exact E | exact N | rewrite E; exact P].
Qed.

(** Without a stop, the turn leaves the controllers as they are. *)
Lemma aborted_bulkScanStep_quiet (W : World) (signal : nat) (u : string) (st : App) :
  userStops W (clock st) = false ->
  aborted signal (bulkScanStep W u st) = aborted signal st.
Proof.
  intros Q. unfold aborted.
  destruct (bulkScanStep_keeps W u st) as (_ & _ & H3 & _).
  rewrite H3, Q. reflexivity.
Qed.

(** A stop pressed during the turn aborts the run's controller. *)
Lemma aborted_bulkScanStep_stop (W : World) (signal : nat) (u : string) (st : App) :
  userStops W (clock st) = true ->
  fullScanAbortController st = Some signal ->
  signal < length (abortControllers st) ->
  aborted signal (bulkScanStep W u st) = true.
Proof.
  intros Q C L. unfold aborted.
  destruct (bulkScanStep_keeps W u st) as (_ & _ & H3 & _).
  rewrite H3, Q, C. apply nth_abortAt. exact L.
Qed.

Lemma fullScanLoop_aborted (W : World) (signal : nat) (urls : list string) (st : App) :
  aborted signal st = true -> fullScanLoop W signal urls st = st.
Proof. intros H. destruct urls; simpl; [|rewrite H]; reflexivity. Qed.

(** ** The bulk scan, stopped *)

Lemma fullScanLoop_stopped (W : World) (signal : nat) (b : string)
  (rest : list string) :
  forall (before : list string) (st : App),
    fullScanAbortController st = Some signal ->
    signal < length (abortControllers st) ->
    aborted signal st = false ->
    NoDup (before ++ b :: rest) ->
    (forall i, i < length before -> userStops W (clock st + i) = false) ->
    userStops W (clock st + length before) = true ->
    trace (fullScanLoop W signal (before ++ b :: rest) st)
    = (trace st ++ map EvScanPage (before ++ [b]))%list
    /\ statusOf b (discoveredLinks (fullScanLoop W signal (before ++ b :: rest) st))
       = Some (settledStatus (scanPage W (clock st + length before) b))
    /\ (forall c, In c rest ->
          JsMap.get c (discoveredLinks st) <> None ->
          JsMap.get c (discoveredLinks (fullScanLoop W signal (before ++ b :: rest) st))
          = JsMap.get c (discoveredLinks st)).
Proof.
  induction before as [|x before IH]; intros st C L A ND Q Hs.
  - simpl in *. rewrite Nat.add_0_r in *. rewrite A.
    rewrite fullScanLoop_aborted
      by (apply aborted_bulkScanStep_stop; assumption).
    split; [apply trace_bulkScanStep|].
    split; [apply statusOf_bulkScanStep_same|].
    intros c Hc P. apply get_bulkScanStep_other; [|exact P].
    inversion ND as [|? ? Hnotin _]; subst. intros ->. contradiction.
  - simpl app. simpl fullScanLoop. rewrite A.
    assert (Q0 : userStops W (clock st) = false).
    { rewrite <- (Nat.add_0_r (clock st)). apply Q. simpl. lia. }
    destruct (controller_bulkScanStep W x st) as [C' L'].
    destruct (IH (bulkScanStep W x st)) as (T & B & F).
    + rewrite C'. exact C.
    + rewrite L'. exact L.
    + rewrite aborted_bulkScanStep_quiet; assumption.
    + inversion ND; assumption.
    + intros i Hi. rewrite clock_bulkScanStep.
      replace (S (clock st) + i) with (clock st + S i) by lia.
      apply Q. simpl. lia.
    + rewrite clock_bulkScanStep.
      replace (S (clock st) + length before) with (clock st + length (x :: before))
        by (simpl; lia).
      exact Hs.
    + split; [|split].
      * rewrite T, trace_bulkScanStep, <- app_assoc. reflexivity.
      * rewrite B, clock_bulkScanStep. f_equal. f_equal. f_equal. simpl. lia.
      * intros c Hc P.
        assert (N : c <> x).
        { inversion ND as [|? ? Hnotin _]; subst. intros ->. apply Hnotin.
          apply in_or_app. right. right. exact Hc. }
        rewrite F; [apply get_bulkScanStep_other; assumption | exact Hc |].
        rewrite get_bulkScanStep_other; assumption.
Qed.

Lemma nth_length_app_false (store : list bool) :
  nth (length store) (store ++ [false]) false = false.
Proof. induction store as [|b store IH]; simpl; [reflexivity | exact IH]. Qed.

(** The bulk scan up to its loop: a fresh controller, not yet aborted, is
    installed, and the loop runs over the pending URLs of the links the
    handler was called with. *)
Lemma handleFullScan_loop (W : World) (isAiTriggered : bool) (st : App) :
  exists st0,
    handleFullScan W isAiTriggered st
    = setIsFullScanning false
        (fullScanLoop W (length (abortControllers st))
           (pendingUrls (discoveredLinks st)) st0)
    /\ discoveredLinks st0 = discoveredLinks st
    /\ linksLog st0 = linksLog st
    /\ trace st0 = trace st
    /\ chatRef st0 = chatRef st
    /\ fullScanAbortController st0 = Some (length (abortControllers st))
    /\ length (abortControllers st) < length (abortControllers st0)
    /\ aborted (length (abortControllers st)) st0 = false.
Proof.
  unfold handleFullScan.
  destruct isAiTriggered; simpl; eexists; (split; [reflexivity|]); simpl;
    repeat split; try (rewrite length_app; simpl; lia);
    unfold aborted; simpl; apply nth_length_app_false.
Qed.



(** The same run computed: the page the stop found in flight is scanned,
    the link it revealed is registered, the page that was next is still
    pending, and the stop button's flag is down. *)
Example bulk_scan_stopped_after_first :
  map (fun kv => (fst kv, status (snd kv)))
      (discoveredLinks (handleFullScan (site (Nat.eqb 3)) false seeded))
  = [(seedUrl, scanned); (urlB, scanned); (urlC, pending); (urlD, pending)]
  /\ abortControllers (handleFullScan (site (Nat.eqb 3)) false seeded) = [true].
Proof. split; reflexivity. Qed.

(** Without a stop both pending pages are scanned, and the page found on
    the way stays pending for a later run. *)
Example bulk_scan_unstopped :
  map (fun kv => (fst kv, status (snd kv)))
      (discoveredLinks (handleFullScan (site neverStops) false seeded))
  = [(seedUrl, scanned); (urlB, scanned); (urlC, scanned); (urlD, pending)].
Proof. reflexivity. Qed.

(** ** The bulk scan as a tool *)

Lemma fullScanLoop_unstopped (W : World) (signal : nat) :
  forall (urls : list string) (st : App),
    aborted signal st = false ->
    (forall i, i < length urls -> userStops W (clock st + i) = false) ->
    trace (fullScanLoop W signal urls st)
    = (trace st ++ map EvScanPage urls)%list
    /\ chatRef (fullScanLoop W signal urls st) = chatRef st.
Proof.
  induction urls as [|x urls IH]; intros st A Q; simpl.
  - rewrite app_nil_r. split; reflexivity.
  - rewrite A.
    assert (Q0 : userStops W (clock st) = false).
    { rewrite <- (Nat.add_0_r (clock st)). apply Q. simpl. lia. }
    destruct (IH (bulkScanStep W x st)) as [T R].
    + rewrite aborted_bulkScanStep_quiet; assumption.
    + intros i Hi. rewrite clock_bulkScanStep.
      replace (S (clock st) + i) with (clock st + S i) by lia.
      apply Q. simpl. lia.
    + destruct (bulkScanStep_keeps W x st) as (T' & _ & _ & R' & _).
      rewrite T, R, T', R', <- app_assoc. split; reflexivity.
Qed.

(** What the code does with an approved [scanAllPendingPages] when nobody
    presses stop: every pending page is scanned first, and only then is the
    acknowledgement sent to the planner. *)
Lemma scanAllPendingPages_scans_before_reply
  (W : World) (functionCall : FunctionCall) (st : App) (session : nat) :
  name functionCall = "scanAllPendingPages" ->
  chatRef st = Some session ->
  (forall i, i < length (pendingUrls (discoveredLinks st)) ->
             userStops W (clock st + i) = false) ->
  trace (stateOf (handleFunctionCallResponse W true functionCall st))
  = (trace st ++ map EvScanPage (pendingUrls (discoveredLinks st))
     ++ [EvSendMessageStream
           (MessageFunctionResponse "scanAllPendingPages"
              (JSON_stringify W
                 (JObject [("success", JBool true);
                           ("message", JString fullScanAck)]) None))])%list.
Proof.
  intros Hname Hchat Q.
  unfold handleFunctionCallResponse, dispatchToolCall. simpl negb. cbv iota.
  rewrite Hname. simpl String.eqb. cbv iota. cbv beta iota delta [d_state resultPayload].
  destruct (handleFullScan_loop W true (withoutProposal functionCall st))
    as (st0 & E & _ & _ & HT & HR & _ & _ & HA).
  rewrite E.
  destruct (fullScanLoop_unstopped W
              (length (abortControllers (withoutProposal functionCall st)))
              (pendingUrls (discoveredLinks (withoutProposal functionCall st))) st0 HA)
    as [T R].
  { unfold clock. rewrite HT. exact Q. }
  set (looped := fullScanLoop W _ _ st0) in *.
  change (chatRef (setIsFullScanning false looped)) with (chatRef looped).
  rewrite R, HR. change (chatRef (withoutProposal functionCall st)) with (chatRef st).
  rewrite Hchat.
  match goal with |- trace (stateOf (sendAndProcess W ?p ?s)) = _ =>
    destruct (sendAndProcess_keeps W p s) as (_ & _ & H3 & _) end.
  rewrite H3.
  change (trace (setIsFullScanning false looped)) with (trace looped).
  rewrite T, HT, <- app_assoc. reflexivity.
Qed.

(** C2, on the code.  On the seeded frontier with two pending pages, the
    approved [scanAllPendingPages] call scans both pages before it sends
    anything: the acknowledgement that the scan was "initiated" is the last
    call of the handler, made when both pages are already scanned. *)
Theorem scanAllPendingPages_awaits_the_bulk_scan :
  skipn (length (trace seeded))
    (trace (stateOf (handleFunctionCallResponse (site neverStops) true
                       (toolCall 9 "scanAllPendingPages" [] "") seeded)))
  = [EvScanPage urlB; EvScanPage urlC;
     EvSendMessageStream
       (MessageFunctionResponse "scanAllPendingPages"
          (renderJson (JObject [("success", JBool true);
                                ("message", JString fullScanAck)])))]
  /\ map (fun kv => (fst kv, status (snd kv)))
         (discoveredLinks
            (stateOf (handleFunctionCallResponse (site neverStops) true
                        (toolCall 9 "scanAllPendingPages" [] "") seeded)))
     = [(seedUrl, scanned); (urlB, scanned); (urlC, scanned); (urlD, pending)].
Proof. split; reflexivity. Qed.

(** ** The status state machine *)

Lemma statusOf_updateLink (u u' : string) (s : LinkStatus) (data : PartialLink)
  (m : JsMap.t DiscoveredLink) :
  p_status data = None ->
  statusOf u' (updateLink u s data m)
  = if String.eqb u u' then Some s else statusOf u' m.
Proof.
  intros H. unfold statusOf. rewrite get_updateLink.
  destruct (String.eqb u u'); [|reflexivity].
  simpl. rewrite H. reflexivity.
Qed.

Lemma last_cons {A : Type} (l : list A) (x d : A) :
  last (x :: l) d = last l x.
Proof.
  revert x d. induction l as [|y l IH]; intros x d; [reflexivity|].
  change (last (x :: y :: l) d) with (last (y :: l) d).
  rewrite (IH y d), (IH y x). reflexivity.
Qed.

Lemma last_app_default {A : Type} (l1 l2 : list A) (d : A) :
  last (l1 ++ l2) d = last l2 (last l1 d).
Proof.
  revert d. induction l1 as [|x l1 IH]; intros d; [reflexivity|].
  change ((x :: l1) ++ l2)%list with (x :: (l1 ++ l2))%list.
  rewrite !last_cons. apply IH.
Qed.

Lemma NoDup_fst_functional {A B : Type} (l : list (A * B)) (a : A) (b b' : B) :
  NoDup (map fst l) -> In (a, b) l -> In (a, b') l -> b = b'.
Proof.
  induction l as [|[x y] l IH]; simpl; intros ND H H'; [contradiction|].
  inversion ND as [|? ? Hnotin ND']; subst.
  destruct H as [E|H]; destruct H' as [E'|H'].
  - congruence.
  - inversion E; subst. exfalso. apply Hnotin.
    change a with (fst (a, b')). apply in_map. exact H'.
  - inversion E'; subst. exfalso. apply Hnotin.
    change a with (fst (a, b)). apply in_map. exact H.
  - apply IH; assumption.
Qed.

Section Machine.

Variable R : option LinkStatus -> option LinkStatus -> bool.
Hypothesis R_follows : follows R.

(** Starting a scan is a move of [R] when it is one for the link named. *)
Lemma mapStep_start (u : string) (m : JsMap.t DiscoveredLink) :
  R (statusOf u m) (Some scanning) = true ->
  mapStep R m (updateLink u scanning noData m).
Proof.
  destruct R_follows as (Rrefl & _).
  intros H u'. rewrite statusOf_updateLink by reflexivity.
  destruct (String.eqb_spec u u') as [<-|_]; [exact H | apply Rrefl].
Qed.

(** A scan settles on a link that is scanning, or that an earlier
    settlement of the same scan already brought to the same status. *)
Lemma mapStep_settle (u : string) (o : Completion ScanResult)
  (data : PartialLink) (m : JsMap.t DiscoveredLink) :
  p_status data = None ->
  statusOf u m = Some scanning \/ statusOf u m = Some (settledStatus o) ->
  mapStep R m (updateLink u (settledStatus o) data m).
Proof.
  destruct R_follows as (Rrefl & _ & Rok & Rfail & _).
  intros H A u'. rewrite statusOf_updateLink by exact H.
  destruct (String.eqb_spec u u') as [<-|_]; [|apply Rrefl].
  destruct A as [-> | ->]; [|apply Rrefl].
  destruct o; simpl; assumption.
Qed.

Lemma mapStep_registerLink (x : string) (m : JsMap.t DiscoveredLink) :
  mapStep R m (registerLink x m).
Proof.
  destruct R_follows as (Rrefl & _ & _ & _ & Rnew).
  intros u. unfold statusOf. rewrite get_registerLink.
  destruct (JsMap.get u m) as [l|]; [apply Rrefl|].
  destruct (String.eqb x u); [exact Rnew | apply Rrefl].
Qed.

Lemma chainFrom_app (new1 new2 : list (JsMap.t DiscoveredLink)) :
  forall m, chainFrom R m new1 -> chainFrom R (last new1 m) new2 ->
            chainFrom R m (new1 ++ new2).
Proof.
  induction new1 as [|m1 new1 IH]; intros m H1 H2.
  - exact H2.
  - destruct H1 as [S1 H1]. rewrite last_cons in H2.
    split; [exact S1 | apply IH; assumption].
Qed.

Lemma Steps_same (st st' : App) :
  linksLog st' = linksLog st -> discoveredLinks st' = discoveredLinks st ->
  Steps R st st'.
Proof.
  intros H1 H2. exists []. rewrite app_nil_r. simpl. auto.
Qed.

Lemma Steps_refl (st : App) : Steps R st st.
Proof. apply Steps_same; reflexivity. Qed.

Lemma Steps_trans (a b c : App) : Steps R a b -> Steps R b c -> Steps R a c.
Proof.
  intros (n1 & L1 & C1 & E1) (n2 & L2 & C2 & E2).
  exists (n1 ++ n2)%list. split; [|split].
  - rewrite L2, L1, app_assoc. reflexivity.
  - apply chainFrom_app; [exact C1 | rewrite <- E1; exact C2].
  - rewrite E2, E1, last_app_default. reflexivity.
Qed.

Lemma Steps_setDiscoveredLinks
  (f : JsMap.t DiscoveredLink -> JsMap.t DiscoveredLink) (st : App) :
  mapStep R (discoveredLinks st) (f (discoveredLinks st)) ->
  Steps R st (setDiscoveredLinks f st).
Proof.
  intros H. exists [f (discoveredLinks st)]. simpl. auto.
Qed.

Lemma Steps_registerDiscoveredLinks (links : list string) (st : App) :
  Steps R st (registerDiscoveredLinks links st).
Proof.
  unfold registerDiscoveredLinks. revert st.
  induction links as [|x links IH]; intros st; simpl; [apply Steps_refl|].
  eapply Steps_trans; [|apply IH].
  apply Steps_setDiscoveredLinks, mapStep_registerLink.
Qed.

Lemma Steps_settleScan (u : string) (o : Completion ScanResult) (st : App) :
  statusOf u (discoveredLinks st) = Some scanning
  \/ statusOf u (discoveredLinks st) = Some (settledStatus o) ->
  Steps R st (settleScan u o st).
Proof.
  intros A. destruct o as [r|e]; simpl.
  - eapply Steps_trans.
    + apply (Steps_setDiscoveredLinks (updateLink u scanned (scannedData r))).
      apply (mapStep_settle u (Ok r)); [reflexivity | exact A].
    + eapply Steps_trans; [apply Steps_registerDiscoveredLinks|].
      apply Steps_same; reflexivity.
  - apply (Steps_setDiscoveredLinks (updateLink u failed noData)).
    apply (mapStep_settle u (Throw e)); [reflexivity | exact A].
Qed.

Lemma statusOf_scanning (u : string) (m : JsMap.t DiscoveredLink) :
  statusOf u (updateLink u scanning noData m) = Some scanning.
Proof.
  rewrite statusOf_updateLink by reflexivity.
  rewrite String.eqb_refl. reflexivity.
Qed.

Lemma Steps_bulkScanStep_if (W : World) (u : string) (st : App) :
  R (statusOf u (discoveredLinks st)) (Some scanning) = true ->
  Steps R st (bulkScanStep W u st).
Proof.
  intros H. unfold bulkScanStep.
  set (st1 := updateLinkStatus u scanning noData st).
  assert (E : forall b : bool,
            linksLog (if b then handleStopFullScan (logEvent (EvScanPage u) st1)
                      else logEvent (EvScanPage u) st1) = linksLog st1
            /\ discoveredLinks
                 (if b then handleStopFullScan (logEvent (EvScanPage u) st1)
                  else logEvent (EvScanPage u) st1) = discoveredLinks st1).
  { intros [|]; [|split; reflexivity].
    unfold handleStopFullScan. simpl.
    destruct (fullScanAbortController st); split; reflexivity. }
  eapply Steps_trans.
  - apply (Steps_setDiscoveredLinks (updateLink u scanning noData)).
    apply mapStep_start, H.
  - eapply Steps_trans; [apply Steps_same; apply E|].
    apply Steps_settleScan. left.
    rewrite (proj2 (E _)). apply statusOf_scanning.
Qed.

(** The loop over distinct URLs that are all pending: each link goes
    pending, scanning, settled, and the links still to come wait as they
    are. *)
Lemma Steps_fullScanLoop_pending (W : World) (signal : nat) (urls : list string) :
  NoDup urls ->
  forall st,
    (forall u, In u urls -> statusOf u (discoveredLinks st) = Some pending) ->
    Steps R st (fullScanLoop W signal urls st).
Proof.
  induction 1 as [|u urls Hnotin _ IH]; intros st H; simpl; [apply Steps_refl|].
  destruct (aborted signal st); [apply Steps_refl|].
  eapply Steps_trans.
  - apply Steps_bulkScanStep_if. rewrite (H u (or_introl eq_refl)).
    apply R_follows.
  - apply IH. intros c Hc. unfold statusOf.
    rewrite get_bulkScanStep_other.
    + apply (H c). right. exact Hc.
    + intros ->. contradiction.
    + specialize (H c (or_intror Hc)). unfold statusOf in H.
      destruct (JsMap.get c (discoveredLinks st)); [discriminate | discriminate].
Qed.

Lemma Steps_handleFullScan_wf (W : World) (isAiTriggered : bool) (st : App) :
  wfLinks (discoveredLinks st) ->
  Steps R st (handleFullScan W isAiTriggered st).
Proof.
  intros WF.
  destruct (handleFullScan_loop W isAiTriggered st)
    as (st0 & E & HL & HG & _).
  rewrite E.
  eapply Steps_trans; [apply Steps_same; [exact HG | exact HL]|].
  eapply Steps_trans; [|apply Steps_same; reflexivity].
  apply Steps_fullScanLoop_pending.
  - apply pendingUrls_NoDup, WF.
  - intros u Hu. rewrite HL. apply pendingUrls_pending; assumption.
Qed.

End Machine.

Section StatusMachine.

Variable R : option LinkStatus -> option LinkStatus -> bool.
Hypothesis R_permits : permits R.

Lemma Steps_bulkScanStep (W : World) (u : string) (st : App) :
  Steps R st (bulkScanStep W u st).
Proof.
  apply Steps_bulkScanStep_if; apply R_permits.
Qed.

Lemma Steps_fullScanLoop (W : World) (signal : nat) (urls : list string) :
  forall st, Steps R st (fullScanLoop W signal urls st).
Proof.
  induction urls as [|u urls IH]; intros st; simpl; [apply Steps_refl|].
  destruct (aborted signal st); [apply Steps_refl|].
  eapply Steps_trans; [apply Steps_bulkScanStep | apply IH].
Qed.

Lemma Steps_handleFullScan (W : World) (isAiTriggered : bool) (st : App) :
  Steps R st (handleFullScan W isAiTriggered st).
Proof.
  destruct (handleFullScan_loop W isAiTriggered st)
    as (st0 & E & HL & HG & _).
  rewrite E.
  eapply Steps_trans; [apply Steps_same; [exact HG | exact HL]|].
  eapply Steps_trans; [apply Steps_fullScanLoop|].
  apply Steps_same; reflexivity.
Qed.

(** The started scans: every link named is scanning afterwards. *)
Lemma Steps_startScans (W : World) (urls : list string) :
  forall acc : App * list (string * Completion ScanResult),
    (forall p, In p (snd acc) ->
               statusOf (fst p) (discoveredLinks (fst acc)) = Some scanning) ->
    Steps R (fst acc) (fst (fold_left (startScan W) urls acc))
    /\ (forall p, In p (snd (fold_left (startScan W) urls acc)) ->
          statusOf (fst p)
            (discoveredLinks (fst (fold_left (startScan W) urls acc)))
          = Some scanning)
    /\ map fst (snd (fold_left (startScan W) urls acc))
       = (map fst (snd acc) ++ urls)%list.
Proof.
  induction urls as [|x urls IH]; intros acc H; simpl.
  - rewrite app_nil_r. split; [apply Steps_refl | split; [exact H | reflexivity]].
  - assert (S1 : Steps R (fst acc) (fst (startScan W acc x))).
    { unfold startScan. simpl.
      eapply Steps_trans; [|apply Steps_same; reflexivity].
      apply (Steps_setDiscoveredLinks R (updateLink x scanning noData)).
      apply mapStep_start; apply R_permits. }
    destruct (IH (startScan W acc x)) as (S2 & A2 & M2).
    + intros p Hp. unfold startScan in *. simpl in *.
      rewrite statusOf_updateLink by reflexivity.
      destruct (String.eqb_spec x (fst p)) as [E|N]; [reflexivity|].
      apply in_app_or in Hp. destruct Hp as [Hp|[<-|[]]].
      * apply H. exact Hp.
      * simpl in N. congruence.
    + split; [eapply Steps_trans; eassumption | split; [exact A2|]].
      rewrite M2. unfold startScan. simpl.
      rewrite map_app, <- app_assoc. reflexivity.
Qed.

(** The settlements, when every started scan has its own URL: a link is
    scanning until its scan settles, and settled as its scan settled. *)
Lemma Steps_settleAll (started : list (string * Completion ScanResult))
  (order : list nat) :
  NoDup (map fst started) ->
  forall st,
    (forall u o, In (u, o) started ->
       statusOf u (discoveredLinks st) = Some scanning
       \/ statusOf u (discoveredLinks st) = Some (settledStatus o)) ->
    Steps R st (fold_left (settleNth started) order st).
Proof.
  intros ND. induction order as [|i order IH]; intros st H; simpl;
    [apply Steps_refl|].
  unfold settleNth at 2.
  destruct (nth_error started i) as [[u o]|] eqn:E; [|apply IH; exact H].
  apply nth_error_In in E.
  eapply Steps_trans;
    [apply Steps_settleScan; [apply R_permits | apply (H u o E)]|].
  apply IH. intros u' o' H'.
  destruct (String.eqb_spec u' u) as [->|N].
  - right. rewrite (NoDup_fst_functional started u o' o ND H' E).
    apply statusOf_settleScan_same.
  - unfold statusOf. rewrite get_settleScan_other; [apply (H u' o' H') | exact N |].
    specialize (H u' o' H'). unfold statusOf in H.
    destruct (JsMap.get u' (discoveredLinks st)); [discriminate|].
    destruct H; discriminate.
Qed.

Lemma Steps_scanPages_once (W : World) (urlsToScan : list string) (st : App) :
  NoDup urlsToScan -> Steps R st (fst (scanPages W urlsToScan st)).
Proof.
  intros ND. unfold scanPages. simpl.
  destruct (Steps_startScans W urlsToScan (st, [])) as (S1 & A1 & M1).
  { intros p []. }
  eapply Steps_trans; [exact S1|]. apply Steps_settleAll.
  - rewrite M1. exact ND.
  - intros u o H. left. apply (A1 (u, o) H).
Qed.

End StatusMachine.

Lemma codeStep_permits : permits codeStep.
Proof.
  repeat split; try reflexivity; intros [[]|]; reflexivity.
Qed.

Lemma rescanStep_permits : permits rescanStep.
Proof.
  repeat split; try reflexivity; intros [[]|]; reflexivity.
Qed.

Lemma specStep_follows : follows specStep.
Proof.
  repeat split; try reflexivity; intros [[]|]; reflexivity.
Qed.

(** *** The loose machine: any list of URLs *)

Lemma mapStep_settled_loose (u : string) (s : LinkStatus) (data : PartialLink)
  (m : JsMap.t DiscoveredLink) :
  p_status data = None -> s <> pending -> leftPending u m = true ->
  mapStep codeStep m (updateLink u s data m).
Proof.
  intros H N A u'. rewrite statusOf_updateLink by exact H.
  destruct (String.eqb_spec u u') as [<-|_];
    [|apply (proj1 (proj1 codeStep_permits))].
  unfold leftPending in A.
  destruct (statusOf u m) as [[]|]; destruct s; try discriminate;
    try reflexivity; congruence.
Qed.

Lemma mapStep_leftPending (m m' : JsMap.t DiscoveredLink) (u : string) :
  mapStep codeStep m m' -> leftPending u m = true -> leftPending u m' = true.
Proof.
  intros H A. specialize (H u). unfold leftPending in *.
  destruct (statusOf u m) as [[]|]; destruct (statusOf u m') as [[]|];
    simpl in *; congruence.
Qed.

Lemma chainFrom_leftPending (new : list (JsMap.t DiscoveredLink)) (u : string) :
  forall m, chainFrom codeStep m new -> leftPending u m = true ->
            leftPending u (last new m) = true.
Proof.
  induction new as [|m1 new IH]; intros m H A; [exact A|].
  destruct H as [S1 H]. rewrite last_cons.
  apply IH; [exact H | exact (mapStep_leftPending _ _ _ S1 A)].
Qed.

Lemma Steps_leftPending (st st' : App) (u : string) :
  Steps codeStep st st' -> leftPending u (discoveredLinks st) = true ->
  leftPending u (discoveredLinks st') = true.
Proof.
  intros (new & _ & C & E) A. rewrite E.
  apply chainFrom_leftPending; assumption.
Qed.

Lemma Steps_settleScan_loose (u : string) (o : Completion ScanResult) (st : App) :
  leftPending u (discoveredLinks st) = true ->
  Steps codeStep st (settleScan u o st).
Proof.
  intros A. destruct o as [r|e]; simpl.
  - eapply Steps_trans.
    + apply (Steps_setDiscoveredLinks codeStep (updateLink u scanned (scannedData r))).
      apply mapStep_settled_loose; [reflexivity | discriminate | exact A].
    + eapply Steps_trans;
        [apply (Steps_registerDiscoveredLinks codeStep (proj1 codeStep_permits))|].
      apply Steps_same; reflexivity.
  - apply (Steps_setDiscoveredLinks codeStep (updateLink u failed noData)).
    apply mapStep_settled_loose; [reflexivity | discriminate | exact A].
Qed.

Lemma Steps_settleAll_loose (started : list (string * Completion ScanResult))
  (order : list nat) :
  forall st,
    (forall p, In p started -> leftPending (fst p) (discoveredLinks st) = true) ->
    Steps codeStep st (fold_left (settleNth started) order st).
Proof.
  induction order as [|i order IH]; intros st H; simpl; [apply Steps_refl|].
  assert (S1 : Steps codeStep st (settleNth started st i)).
  { unfold settleNth. destruct (nth_error started i) as [[u o]|] eqn:E.
    - apply Steps_settleScan_loose. apply (H (u, o)). eapply nth_error_In. exact E.
    - apply Steps_refl. }
  eapply Steps_trans; [exact S1|]. apply IH.
  intros p Hp. apply (Steps_leftPending _ _ _ S1). apply H. exact Hp.
Qed.

Lemma Steps_scanPages_any (W : World) (urlsToScan : list string) (st : App) :
  Steps codeStep st (fst (scanPages W urlsToScan st)).
Proof.
  unfold scanPages. simpl.
  destruct (Steps_startScans codeStep codeStep_permits W urlsToScan (st, []))
    as (S1 & A1 & _).
  { intros p []. }
  eapply Steps_trans; [exact S1|]. apply Steps_settleAll_loose.
  intros p Hp. unfold leftPending. rewrite (A1 p Hp). reflexivity.
Qed.

(** *** From the scans to the handlers *)

Section Handlers.

Variable R : option LinkStatus -> option LinkStatus -> bool.
Hypothesis R_permits : permits R.
Variable ok : list string -> Prop.
Hypothesis Steps_scanPages :
  forall W urlsToScan st,
    ok urlsToScan -> Steps R st (fst (scanPages W urlsToScan st)).

Lemma Steps_dispatchToolCall (W : World) (links : JsMap.t DiscoveredLink)
  (functionCall : FunctionCall) (st : App) :
  (name functionCall = "scanPages" -> ok (arg_urls (args functionCall))) ->
  Steps R st (d_state (dispatchToolCall W links functionCall st)).
Proof.
  intros Hok. unfold dispatchToolCall.
  destruct (String.eqb_spec (name functionCall) "scanPages") as [E|_];
    [apply Steps_scanPages, Hok, E|].
  destruct (String.eqb (name functionCall) "extractDataFromPage").
  { destruct (scannedMarkup _); apply Steps_same; reflexivity. }
  destruct (String.eqb (name functionCall) "performSeoAnalysis").
  { destruct (scannedMarkup _); apply Steps_same; reflexivity. }
  destruct (String.eqb (name functionCall) "analyzeImageFromUrl");
    [apply Steps_same; reflexivity|].
  destruct (String.eqb (name functionCall) "scanAllPendingPages");
    [apply Steps_handleFullScan, R_permits | apply Steps_refl].
Qed.

Lemma Steps_sendAndProcess (W : World) (p : SendPayload) (st : App) :
  Steps R st (stateOf (sendAndProcess W p st)).
Proof.
  destruct (sendAndProcess_keeps W p st) as (H1 & _ & _ & H4).
  apply Steps_same; assumption.
Qed.

Lemma Steps_handleFunctionCallResponse (W : World) (approved : bool)
  (functionCall : FunctionCall) (st : App) :
  (name functionCall = "scanPages" -> ok (arg_urls (args functionCall))) ->
  Steps R st (stateOf (handleFunctionCallResponse W approved functionCall st)).
Proof.
  intros Hok. unfold handleFunctionCallResponse.
  destruct approved; simpl negb; cbv iota.
  - eapply Steps_trans;
      [apply (Steps_same R st (withoutProposal functionCall st)); reflexivity|].
    eapply Steps_trans; [apply Steps_dispatchToolCall, Hok|].
    destruct (chatRef _); [apply Steps_sendAndProcess | apply Steps_refl].
  - apply Steps_same; reflexivity.
Qed.

Lemma Steps_runOps (W : World) (ops : list Op) :
  Forall (scansOnly ok) ops -> forall st, Steps R st (runOps W ops st).
Proof.
  unfold runOps. induction 1 as [|op ops Hop _ IH]; intros st; simpl;
    [apply Steps_refl|].
  eapply Steps_trans; [|apply IH].
  destruct op as [approved fc|ref u|t|ai|]; simpl in *.
  - apply Steps_handleFunctionCallResponse, Hop.
  - apply Steps_handleFunctionCallResponse. intros _. exact Hop.
  - unfold handleSendMessage. destruct (chatRef st); [|apply Steps_refl].
    eapply Steps_trans; [|apply Steps_sendAndProcess].
    apply Steps_same; reflexivity.
  - apply Steps_handleFullScan, R_permits.
  - unfold handleStopFullScan. apply Steps_same;
      destruct (fullScanAbortController st); reflexivity.
Qed.

End Handlers.

Lemma skipn_length_app {A : Type} (l new : list A) :
  skipn (length l) (l ++ new) = new.
Proof. induction l as [|x l IH]; simpl; [reflexivity | exact IH]. Qed.

Lemma Steps_linksBetween (R : option LinkStatus -> option LinkStatus -> bool)
  (st st' : App) :
  Steps R st st' ->
  stepwise R (linksBetween st st')
  /\ last (linksBetween st st') (discoveredLinks st) = discoveredLinks st'.
Proof.
  intros (new & L & C & E). unfold linksBetween.
  rewrite L, skipn_length_app, last_cons, E. split; [|reflexivity].
  clear L E. revert C. generalize (discoveredLinks st) as m.
  induction new as [|m1 new IH]; intros m C; simpl; [exact I|].
  destruct C as [S1 C]. split; [exact S1 | apply IH; exact C].
Qed.

Lemma discoveredLinks_handleInitialScan (W : World) (seed : string)
  (r : ScanResult) (st : App) :
  scanPage W (S (clock st)) seed = Ok r ->
  discoveredLinks (handleInitialScan W seed st) = seedLinksMap seed r.
Proof.
  intros H. unfold handleInitialScan.
  replace (clock (logEvent EvCreateChatSession _)) with (S (clock st)).
  2:{ unfold clock. simpl. rewrite length_app. simpl. lia. }
  rewrite H.
  match goal with |- context [sendAndProcess W ?p ?s] =>
    destruct (sendAndProcess_keeps W p s) as (H1 & _);
    destruct (sendAndProcess W p s) as [st5|e st5] end;
    simpl in *; exact H1.
Qed.




(** Why a [scanPages] call must name a URL once for [rescanStep]: named
    twice, the page is scanned twice, and when the first scan gets through
    and the second does not, the link goes from scanned to failed without
    passing through scanning. *)
Example duplicate_urls_leave_rescanStep :
  map (statusOf urlB)
      (linksBetween seeded
         (runOps (flaky 3)
            [OpFunctionCallResponse true (toolCall 2 "scanPages" [urlB; urlB] "")]
            seeded))
  = [Some pending; Some scanning; Some scanning; Some scanned; Some scanned;
     Some scanned; Some failed].
Proof. reflexivity. Qed.

(** ** Invariants of the link map

    A property of the link map that the two updaters of the handlers keep
    is kept by every operation. *)

Section FrontierInvariant.

Variable P : JsMap.t DiscoveredLink -> Prop.
Hypothesis P_update :
  forall u s data m,
    p_status data = None -> p_url data = None -> s <> pending ->
    P m -> P (updateLink u s data m).
Hypothesis P_register : forall x m, P m -> P (registerLink x m).

Lemma inv_registerDiscoveredLinks (links : list string) (st : App) :
  P (discoveredLinks st) -> P (discoveredLinks (registerDiscoveredLinks links st)).
Proof.
  rewrite discoveredLinks_registerDiscoveredLinks.
  generalize (discoveredLinks st) as m.
  induction links as [|x links IH]; intros m H; simpl; [exact H|].
  apply IH, P_register, H.
Qed.

Lemma inv_settleScan (u : string) (o : Completion ScanResult) (st : App) :
  P (discoveredLinks st) -> P (discoveredLinks (settleScan u o st)).
Proof.
  intros H. destruct o as [r|e]; simpl.
  - apply (inv_registerDiscoveredLinks (r_links r)
             (updateLinkStatus u scanned (scannedData r) st)).
    simpl. apply P_update; [reflexivity | reflexivity | discriminate | exact H].
  - apply P_update; [reflexivity | reflexivity | discriminate | exact H].
Qed.

Lemma inv_bulkScanStep (W : World) (u : string) (st : App) :
  P (discoveredLinks st) -> P (discoveredLinks (bulkScanStep W u st)).
Proof.
  intros H. rewrite discoveredLinks_bulkScanStep. apply inv_settleScan.
  simpl. apply P_update; [reflexivity | reflexivity | discriminate | exact H].
Qed.

Lemma inv_fullScanLoop (W : World) (signal : nat) (urls : list string) :
  forall st, P (discoveredLinks st) ->
             P (discoveredLinks (fullScanLoop W signal urls st)).
Proof.
  induction urls as [|u urls IH]; intros st H; simpl; [exact H|].
  destruct (aborted signal st); [exact H|].
  apply IH, inv_bulkScanStep, H.
Qed.

Lemma inv_handleFullScan (W : World) (isAiTriggered : bool) (st : App) :
  P (discoveredLinks st) -> P (discoveredLinks (handleFullScan W isAiTriggered st)).
Proof.
  intros H.
  destruct (handleFullScan_loop W isAiTriggered st) as (st0 & E & HL & _).
  rewrite E. simpl. apply inv_fullScanLoop. rewrite HL. exact H.
Qed.

Lemma inv_scanPages (W : World) (urlsToScan : list string) (st : App) :
  P (discoveredLinks st) -> P (discoveredLinks (fst (scanPages W urlsToScan st))).
Proof.
  intros H. unfold scanPages. simpl.
  assert (H1 : forall urls acc,
             P (discoveredLinks (fst acc)) ->
             P (discoveredLinks (fst (fold_left (startScan W) urls acc)))).
  { induction urls as [|x urls IH]; intros acc Ha; simpl; [exact Ha|].
    apply IH. unfold startScan. simpl.
    apply P_update; [reflexivity | reflexivity | discriminate | exact Ha]. }
  assert (H2 : forall started order st',
             P (discoveredLinks st') ->
             P (discoveredLinks (fold_left (settleNth started) order st'))).
  { intros started. induction order as [|i order IH]; intros st' Hs; simpl;
      [exact Hs|].
    apply IH. unfold settleNth.
    destruct (nth_error started i) as [[u o]|]; [apply inv_settleScan|]; exact Hs. }
  apply H2, H1. exact H.
Qed.

Lemma inv_handleFunctionCallResponse (W : World) (approved : bool)
  (functionCall : FunctionCall) (st : App) :
  P (discoveredLinks st) ->
  P (discoveredLinks (stateOf (handleFunctionCallResponse W approved functionCall st))).
Proof.
  intros H. unfold handleFunctionCallResponse.
  destruct approved; simpl negb; cbv iota; [|exact H].
  assert (D : P (discoveredLinks
                   (d_state (dispatchToolCall W (discoveredLinks st) functionCall
                               (withoutProposal functionCall st))))).
  { unfold dispatchToolCall.
    destruct (String.eqb (name functionCall) "scanPages");
      [apply inv_scanPages; exact H|].
    destruct (String.eqb (name functionCall) "extractDataFromPage").
    { destruct (scannedMarkup _); exact H. }
    destruct (String.eqb (name functionCall) "performSeoAnalysis").
    { destruct (scannedMarkup _); exact H. }
    destruct (String.eqb (name functionCall) "analyzeImageFromUrl"); [exact H|].
    destruct (String.eqb (name functionCall) "scanAllPendingPages");
      [apply inv_handleFullScan|]; exact H. }
  destruct (chatRef _); [|exact D].
  match goal with |- context [sendAndProcess W ?p ?s] =>
    rewrite (proj1 (sendAndProcess_keeps W p s)) end.
  exact D.
Qed.

Lemma inv_runOps (W : World) (ops : list Op) :
  forall st, P (discoveredLinks st) -> P (discoveredLinks (runOps W ops st)).
Proof.
  unfold runOps. induction ops as [|op ops IH]; intros st H; simpl; [exact H|].
  apply IH. destruct op as [approved fc|ref u|t|ai|]; simpl.
  - apply inv_handleFunctionCallResponse, H.
  - apply inv_handleFunctionCallResponse, H.
  - unfold handleSendMessage. destruct (chatRef st); [|exact H].
    match goal with |- context [sendAndProcess W ?p ?s] =>
      rewrite (proj1 (sendAndProcess_keeps W p s)) end.
    exact H.
  - apply inv_handleFullScan, H.
  - unfold handleStopFullScan. destruct (fullScanAbortController st); exact H.
Qed.

End FrontierInvariant.

Lemma In_JsMap_set {V : Type} (k u : string) (l v : V) (m : JsMap.t V) :
  In (k, l) (JsMap.set u v m) -> (k = u /\ l = v) \/ In (k, l) m.
Proof.
  induction m as [|[k0 v0] m IH]; simpl.
  - intros [E|[]]. inversion E. left. split; reflexivity.
  - destruct (String.eqb k0 u); simpl.
    + intros [E|H]; [inversion E; left; split; reflexivity | right; right; exact H].
    + intros [E|H]; [right; left; exact E|].
      destruct (IH H) as [L|Rr]; [left; exact L | right; right; exact Rr].
Qed.

Lemma wfLinks_updateLink (u : string) (s : LinkStatus) (data : PartialLink)
  (m : JsMap.t DiscoveredLink) :
  p_status data = None -> p_url data = None -> s <> pending ->
  wfLinks m -> wfLinks (updateLink u s data m).
Proof.
  intros Hs _ N [ND H]. split.
  - apply JsMap_set_NoDup, ND.
  - intros k l HIn Hp. apply In_JsMap_set in HIn.
    destruct HIn as [[-> ->]|HIn]; [|apply H; assumption].
    simpl in Hp. rewrite Hs in Hp. contradiction.
Qed.

Lemma wfLinks_registerLink (x : string) (m : JsMap.t DiscoveredLink) :
  wfLinks m -> wfLinks (registerLink x m).
Proof.
  intros [ND H]. unfold registerLink.
  destruct (JsMap.has x m); simpl; [split; assumption|]. split.
  - apply JsMap_set_NoDup, ND.
  - intros k l HIn Hp. apply In_JsMap_set in HIn.
    destruct HIn as [[-> ->]|HIn]; [reflexivity | apply H; assumption].
Qed.

(** The map a seed scan builds is well formed, and every operation keeps
    the link map well formed. *)
Lemma wfLinks_seedLinksMap (seed : string) (r : ScanResult) :
  wfLinks (seedLinksMap seed r).
Proof.
  unfold seedLinksMap.
  assert (H0 : wfLinks
                 (JsMap.set seed
                    {| url := Some seed; status := scanned;
                       title := Some (r_title r);
                       textContent := Some (r_textContent r);
                       htmlContent := Some (r_htmlContent r) |} [])).
  { split; simpl.
    - repeat constructor. simpl. tauto.
    - intros k l [E|[]] Hp. inversion E; subst. discriminate Hp. }
  revert H0. generalize (JsMap.set seed
                    {| url := Some seed; status := scanned;
                       title := Some (r_title r);
                       textContent := Some (r_textContent r);
                       htmlContent := Some (r_htmlContent r) |} []) as m.
  induction (r_links r) as [|x links IH]; intros m H; simpl; [exact H|].
  apply IH, wfLinks_registerLink, H.
Qed.

Lemma wfLinks_runOps (W : World) (ops : list Op) (st : App) :
  wfLinks (discoveredLinks st) -> wfLinks (discoveredLinks (runOps W ops st)).
Proof.
  apply (inv_runOps wfLinks).
  - intros u s data m. apply wfLinks_updateLink.
  - apply wfLinks_registerLink.
Qed.

Lemma nth_abortAt_other (other signal : nat) (store : list bool) :
  other <> signal ->
  nth signal (abortAt other store) false = nth signal store false.
Proof.
  revert other signal.
  induction store as [|b store IH]; intros other signal N; [reflexivity|].
  destruct other as [|other]; destruct signal as [|signal]; simpl;
    try reflexivity; try congruence.
  apply IH. lia.
Qed.

(** The stop button reaches the controller the ref holds and no other. *)
Lemma handleStopFullScan_other_controller (signal other : nat) (st : App) :
  fullScanAbortController st = Some other -> other <> signal ->
  aborted signal (handleStopFullScan st) = aborted signal st.
Proof.
  intros C N. unfold aborted, handleStopFullScan. rewrite C. simpl.
  apply nth_abortAt_other. exact N.
Qed.

(** * Further properties of the handlers *)

(** ** The stage and the session *)

Lemma sameShell_refl (st : App) : sameShell st st.
Proof. repeat split. Qed.

Lemma sameShell_trans (a b c : App) :
  sameShell a b -> sameShell b c -> sameShell a c.
Proof.
  intros (A1 & A2 & A3 & A4) (B1 & B2 & B3 & B4).
  repeat split; congruence.
Qed.

Lemma sameShell_registerDiscoveredLinks (links : list string) (st : App) :
  sameShell st (registerDiscoveredLinks links st).
Proof.
  unfold registerDiscoveredLinks. revert st.
  induction links as [|x links IH]; intros st; simpl; [apply sameShell_refl|].
  eapply sameShell_trans; [|apply IH]. repeat split.
Qed.

Lemma sameShell_settleScan (u : string) (o : Completion ScanResult) (st : App) :
  sameShell st (settleScan u o st).
Proof.
  destruct o as [r|e]; simpl; [|repeat split].
  apply (sameShell_trans st (updateLinkStatus u scanned (scannedData r) st));
    [repeat split|].
  apply (sameShell_trans _
           (registerDiscoveredLinks (r_links r)
              (updateLinkStatus u scanned (scannedData r) st)));
    [apply sameShell_registerDiscoveredLinks | repeat split].
Qed.

Lemma sameShell_handleStopFullScan (st : App) :
  sameShell st (handleStopFullScan st).
Proof.
  unfold handleStopFullScan.
  destruct (fullScanAbortController st); repeat split.
Qed.

Lemma sameShell_bulkScanStep (W : World) (u : string) (st : App) :
  sameShell st (bulkScanStep W u st).
Proof.
  unfold bulkScanStep.
  eapply sameShell_trans; [|apply sameShell_settleScan].
  destruct (userStops W _).
  - eapply sameShell_trans; [|apply sameShell_handleStopFullScan]. repeat split.
  - repeat split.
Qed.

Lemma sameShell_fullScanLoop (W : World) (signal : nat) (urls : list string) :
  forall st, sameShell st (fullScanLoop W signal urls st).
Proof.
  induction urls as [|u urls IH]; intros st; simpl; [apply sameShell_refl|].
  destruct (aborted signal st); [apply sameShell_refl|].
  eapply sameShell_trans; [apply sameShell_bulkScanStep | apply IH].
Qed.

Lemma sameShell_handleFullScan (W : World) (isAiTriggered : bool) (st : App) :
  sameShell st (handleFullScan W isAiTriggered st).
Proof.
  unfold handleFullScan. cbv zeta.
  match goal with
  | |- sameShell _ (setIsFullScanning false (fullScanLoop _ ?sig ?us ?s0)) =>
      apply (sameShell_trans st s0);
        [destruct isAiTriggered; repeat split|];
      apply (sameShell_trans s0 (fullScanLoop W sig us s0));
        [apply sameShell_fullScanLoop | repeat split]
  end.
Qed.

Lemma sameShell_scanPages (W : World) (urlsToScan : list string) (st : App) :
  sameShell st (fst (scanPages W urlsToScan st)).
Proof.
  unfold scanPages. simpl.
  assert (H1 : forall urls acc,
             sameShell (fst acc) (fst (fold_left (startScan W) urls acc))).
  { induction urls as [|x urls IH]; intros acc; simpl; [apply sameShell_refl|].
    eapply sameShell_trans; [|apply IH]. repeat split. }
  assert (H2 : forall started order st',
             sameShell st' (fold_left (settleNth started) order st')).
  { intros started. induction order as [|i order IH]; intros st'; simpl;
      [apply sameShell_refl|].
    eapply sameShell_trans; [|apply IH]. unfold settleNth.
    destruct (nth_error started i) as [[u o]|];
      [apply sameShell_settleScan | apply sameShell_refl]. }
  eapply sameShell_trans; [apply (H1 urlsToScan (st, []))|apply H2].
Qed.

Lemma sameShell_dispatchToolCall (W : World) (links : JsMap.t DiscoveredLink)
  (functionCall : FunctionCall) (st : App) :
  sameShell st (d_state (dispatchToolCall W links functionCall st)).
Proof.
  unfold dispatchToolCall.
  destruct (String.eqb (name functionCall) "scanPages");
    [apply sameShell_scanPages|].
  destruct (String.eqb (name functionCall) "extractDataFromPage").
  { destruct (scannedMarkup _); repeat split. }
  destruct (String.eqb (name functionCall) "performSeoAnalysis").
  { destruct (scannedMarkup _); repeat split. }
  destruct (String.eqb (name functionCall) "analyzeImageFromUrl");
    [repeat split|].
  destruct (String.eqb (name functionCall) "scanAllPendingPages");
    [apply sameShell_handleFullScan | apply sameShell_refl].
Qed.

Lemma sameShell_processStream (rs : list GenerateContentResponse) (st : App) :
  sameShell st (processStreamAndAddMessages rs st).
Proof.
  unfold processStreamAndAddMessages.
  destruct (truthy (trim (fst (accumulateStream rs))));
    destruct (snd (accumulateStream rs)); simpl; repeat split.
Qed.

Lemma sameShell_sendAndProcess (W : World) (p : SendPayload) (st : App) :
  sameShell st (stateOf (sendAndProcess W p st)).
Proof.
  unfold sendAndProcess.
  destruct (sendMessageStream W (clock st) p) as [rs|e]; simpl.
  - eapply sameShell_trans; [|apply sameShell_processStream]. repeat split.
  - repeat split.
Qed.

Lemma sameShell_handleFunctionCallResponse (W : World) (approved : bool)
  (functionCall : FunctionCall) (st : App) :
  sameShell st (stateOf (handleFunctionCallResponse W approved functionCall st)).
Proof.
  unfold handleFunctionCallResponse.
  destruct approved; simpl negb; cbv iota; [|repeat split].
  eapply sameShell_trans;
    [apply (sameShell_dispatchToolCall W (discoveredLinks st) functionCall
              (withoutProposal functionCall st))|].
  destruct (chatRef _); [apply sameShell_sendAndProcess | apply sameShell_refl].
Qed.

Lemma sameShell_runOp (W : World) (op : Op) (st : App) :
  sameShell st (runOp W st op).
Proof.
  destruct op as [approved fc|ref u|t|ai|]; simpl.
  - apply sameShell_handleFunctionCallResponse.
  - apply sameShell_handleFunctionCallResponse.
  - unfold handleSendMessage. destruct (chatRef st); [|apply sameShell_refl].
    eapply sameShell_trans; [|apply sameShell_sendAndProcess]. repeat split.
  - apply sameShell_handleFullScan.
  - apply sameShell_handleStopFullScan.
Qed.

(** ** The turns a reply adds *)

Lemma processStream_appends (rs : list GenerateContentResponse) (st : App) :
  exists added,
    chatHistory (processStreamAndAddMessages rs st)
    = (chatHistory st ++ added)%list
    /\ added <> [] /\ forallb fromBot added = true.
Proof.
  unfold processStreamAndAddMessages.
  destruct (trim (fst (accumulateStream rs))) as [|c t];
    destruct (snd (accumulateStream rs)) as [calls|]; simpl.
  - exists [FunctionCallChatMessage (nth_error calls 0)].
    repeat split. discriminate.
  - exists [TextChatMessage emptyResponseNotice bot].
    repeat split. discriminate.
  - exists [TextChatMessage (String c t) bot;
            FunctionCallChatMessage (nth_error calls 0)].
    rewrite <- app_assoc. repeat split. discriminate.
  - exists [TextChatMessage (String c t) bot].
    repeat split. discriminate.
Qed.

(** ** The initial scan, past the seed *)

Lemma handleInitialScan_scanned (W : World) (u : string) (r : ScanResult)
  (st : App) :
  scanPage W (S (clock st)) u = Ok r ->
  handleInitialScan W u st
  = match sendAndProcess W
            (MessageText (initialMessage W u r (seedLinksMap u r)))
            (afterSeedScan u r st) with
    | Resolved st5 => st5
    | Rejected e st5 => initialScanFailed e st5
    end.
Proof.
  intros H. unfold handleInitialScan.
  replace (clock (logEvent EvCreateChatSession _)) with (S (clock st)).
  2:{ unfold clock. simpl. rewrite length_app. simpl. lia. }
  rewrite H. reflexivity.
Qed.

Lemma clock_afterSeedScan (u : string) (r : ScanResult) (st : App) :
  clock (afterSeedScan u r st) = S (S (clock st)).
Proof.
  unfold clock. simpl. rewrite !length_app. simpl. lia.
Qed.

(** X3.  A seed scan that succeeds, answered by the planner: the chat
    stage opens with a session, the link map is the seed map whatever it
    held before, whereas the assets of the page are added to the asset map
    that was there; the calls made are the session's creation, the scan and
    one message, and the transcript grows by the planner's turns. *)
Theorem handleInitialScan_opens_session
  (W : World) (u : string) (st : App) (r : ScanResult)
  (rs : list GenerateContentResponse) :
  scanPage W (S (clock st)) u = Ok r ->
  sendMessageStream W (S (S (clock st)))
    (MessageText (initialMessage W u r (seedLinksMap u r))) = Ok rs ->
  appStatus (handleInitialScan W u st) = AppStatus.chat
  /\ error (handleInitialScan W u st) = None
  /\ chatRef (handleInitialScan W u st) = Some (clock st)
  /\ discoveredLinks (handleInitialScan W u st) = seedLinksMap u r
  /\ discoveredAssets (handleInitialScan W u st)
     = addAssets (r_assets r) (discoveredAssets st)
  /\ trace (handleInitialScan W u st)
     = (trace st
        ++ [EvCreateChatSession; EvScanPage u;
            EvSendMessageStream
              (MessageText (initialMessage W u r (seedLinksMap u r)))])%list
  /\ exists added,
       chatHistory (handleInitialScan W u st) = (chatHistory st ++ added)%list
       /\ added <> [] /\ forallb fromBot added = true.
Proof.
  intros Hscan Hsend.
  rewrite (handleInitialScan_scanned W u r st Hscan).
  unfold sendAndProcess. rewrite clock_afterSeedScan, Hsend.
  set (st4 := logEvent _ (afterSeedScan u r st)).
  destruct (processStream_keeps rs st4) as (H1 & H2 & H3 & _).
  destruct (sameShell_processStream rs st4) as (S1 & S2 & S3 & _).
  rewrite S1, S2, S3, H1, H2, H3.
  repeat split.
  - simpl. rewrite <- !app_assoc. reflexivity.
  - destruct (processStream_appends rs st4) as (added & E & N & F).
    exists added. split; [exact E | split; assumption].
Qed.

Lemma handleInitialScan_opens_session_witness :
  appStatus (handleInitialScan (site neverStops) seedUrl initialApp)
  = AppStatus.chat
  /\ JsMap.keys (discoveredLinks (handleInitialScan (site neverStops) seedUrl initialApp))
     = [seedUrl; urlB; urlC].
Proof.
  destruct (handleInitialScan_opens_session (site neverStops) seedUrl initialApp
              {| r_textContent := "Welcome"; r_links := [urlB; urlC];
                 r_assets := [logo]; r_title := "Home";
                 r_htmlContent := "<h1>Welcome</h1>" |}
              [textChunk "Noted."] eq_refl eq_refl)
    as (H1 & _ & _ & H4 & _).
  split; [exact H1 | rewrite H4; reflexivity].
Defined.

(** X4.  A seed scan that succeeds but whose first message the transport
    fails to deliver: the input stage is back with the error shown and the
    transcript as it was, yet the frontier is seeded: the link map is the
    seed map and the page's assets are in the asset map. *)
Theorem handleInitialScan_transport_failure
  (W : World) (u : string) (st : App) (r : ScanResult) (e : JsError) :
  scanPage W (S (clock st)) u = Ok r ->
  sendMessageStream W (S (S (clock st)))
    (MessageText (initialMessage W u r (seedLinksMap u r))) = Throw e ->
  appStatus (handleInitialScan W u st) = AppStatus.input
  /\ error (handleInitialScan W u st)
     = Some (if truthy (message e) then message e
             else "An unknown error occurred during the initial scan.")
  /\ chatHistory (handleInitialScan W u st) = chatHistory st
  /\ discoveredLinks (handleInitialScan W u st) = seedLinksMap u r
  /\ discoveredAssets (handleInitialScan W u st)
     = addAssets (r_assets r) (discoveredAssets st).
Proof.
  intros Hscan Hsend.
  rewrite (handleInitialScan_scanned W u r st Hscan).
  unfold sendAndProcess. rewrite clock_afterSeedScan, Hsend.
  repeat split.
Qed.

Lemma handleInitialScan_transport_failure_witness :
  appStatus (handleInitialScan plannerDown seedUrl initialApp) = AppStatus.input
  /\ error (handleInitialScan plannerDown seedUrl initialApp)
     = Some "An unknown error occurred during the initial scan."
  /\ JsMap.keys (discoveredLinks (handleInitialScan plannerDown seedUrl initialApp))
     = [seedUrl; urlB; urlC].
Proof.
  destruct (handleInitialScan_transport_failure plannerDown seedUrl initialApp
              {| r_textContent := "Welcome"; r_links := [urlB; urlC];
                 r_assets := [logo]; r_title := "Home";
                 r_htmlContent := "<h1>Welcome</h1>" |}
              {| message := "" |} eq_refl eq_refl)
    as (H1 & H2 & _ & H4 & _).
  split; [exact H1 | split; [exact H2 | rewrite H4; reflexivity]].
Defined.

(** ** What holds in every state the component reaches *)

Lemma handleInitialScan_failed (W : World) (u : string) (e : JsError) (st : App) :
  scanPage W (S (clock st)) u = Throw e ->
  handleInitialScan W u st
  = initialScanFailed e
      (logEvent (EvScanPage u)
         (logEvent EvCreateChatSession
            (set_chatRef (Some (clock st))
               (set_currentUrlRef u
                  (setError None (setStatus AppStatus.scanning st)))))).
Proof.
  intros H. unfold handleInitialScan.
  replace (clock (logEvent EvCreateChatSession _)) with (S (clock st)).
  2:{ unfold clock. simpl. rewrite length_app. simpl. lia. }
  rewrite H. reflexivity.
Qed.

Lemma wfLinks_empty : wfLinks [].
Proof. split; [constructor | intros k l []]. Qed.

Lemma seedLinksMap_nonempty (u : string) (r : ScanResult) : seedLinksMap u r <> [].
Proof.
  intros E.
  assert (H : JsMap.get u (seedLinksMap u r) = None) by (rewrite E; reflexivity).
  unfold seedLinksMap in H. rewrite get_fold_registerLink in H.
  simpl in H. rewrite String.eqb_refl in H. discriminate H.
Qed.

Lemma updateLink_nonempty (u : string) (s : LinkStatus) (data : PartialLink)
  (m : JsMap.t DiscoveredLink) : updateLink u s data m <> [].
Proof.
  unfold updateLink. destruct m as [|[k v] m]; simpl; [discriminate|].
  destruct (String.eqb k u); discriminate.
Qed.

Lemma registerLink_nonempty (x : string) (m : JsMap.t DiscoveredLink) :
  m <> [] -> registerLink x m <> [].
Proof.
  intros H. unfold registerLink. destruct (JsMap.has x m); simpl; [exact H|].
  destruct m as [|[k v] m]; [congruence|]. simpl.
  destruct (String.eqb k x); discriminate.
Qed.

(** X5.  In every state the component reaches: the link map has one entry
    per key and its pending records carry their key as [url]; the scanning
    stage is never the stage a handler leaves behind; and whenever the chat
    stage is shown there is a session to talk to and the frontier is not
    empty. *)
Theorem reachable_invariants (W : World) (st : App) :
  Reachable W st ->
  wfLinks (discoveredLinks st)
  /\ appStatus st <> AppStatus.scanning
  /\ (appStatus st = AppStatus.chat ->
      chatRef st <> None /\ discoveredLinks st <> []).
Proof.
  induction 1 as [|st u _ (WF & NS & CH) Hst|st op _ (WF & NS & CH) Hst
                  |st _ _ _|st b _ (WF & NS & CH) Hst].
  - split; [apply wfLinks_empty|]. split; [discriminate|]. discriminate.
  - destruct (scanPage W (S (clock st)) u) as [r|e] eqn:Hscan.
    + rewrite (handleInitialScan_scanned W u r st Hscan).
      set (p := MessageText _). set (st4 := afterSeedScan u r st).
      destruct (sendAndProcess_keeps W p st4) as (K1 & _).
      destruct (sameShell_sendAndProcess W p st4) as (S1 & _ & S3 & _).
      destruct (sendAndProcess W p st4) as [st5|e st5]; simpl in *.
      * rewrite K1, S1, S3. split; [apply wfLinks_seedLinksMap|].
        split; [discriminate|]. intros _.
        split; [discriminate | apply seedLinksMap_nonempty].
      * rewrite K1. split; [apply wfLinks_seedLinksMap|].
        split; discriminate.
    + rewrite (handleInitialScan_failed W u e st Hscan). simpl.
      split; [exact WF|]. split; discriminate.
  - destruct (sameShell_runOp W op st) as (S1 & _ & S3 & _).
    rewrite S1, S3.
    split; [apply (wfLinks_runOps W [op] st WF)|]. split; [exact NS|].
    intros C. destruct (CH C) as [C1 C2]. split; [exact C1|].
    apply (inv_runOps (fun m => m <> []) (fun u s data m _ _ _ _ =>
             updateLink_nonempty u s data m) registerLink_nonempty W [op] st C2).
  - simpl. split; [apply wfLinks_empty|]. split; discriminate.
  - simpl. split; [exact WF|]. split; [exact NS | exact CH].
Qed.

Lemma reachable_invariants_witness :
  wfLinks (discoveredLinks seeded) /\ chatRef seeded <> None.
Proof.
  assert (R : Reachable (site neverStops) seeded).
  { apply (reach_seed (site neverStops) initialApp seedUrl);
      [apply reach_mount | reflexivity]. }
  destruct (reachable_invariants (site neverStops) seeded R) as (WF & _ & CH).
  split; [exact WF | apply CH; reflexivity].
Defined.

(** ** The scans of one [scanPages] call *)

Lemma spreadLink_scanning (old : option DiscoveredLink) :
  spreadLink old scanning noData = scanningRecord old.
Proof. destruct old; reflexivity. Qed.

Lemma map_fst_scanOutcomes (W : World) (urls : list string) :
  forall t, map fst (scanOutcomes W t urls) = urls.
Proof.
  induction urls as [|u urls IH]; intros t; simpl; [reflexivity|].
  rewrite IH. reflexivity.
Qed.

Lemma nth_error_scanOutcomes (W : World) (urls : list string) :
  forall t i u,
    nth_error urls i = Some u ->
    nth_error (scanOutcomes W t urls) i = Some (u, scanPage W (t + i) u).
Proof.
  induction urls as [|x urls IH]; intros t i u H.
  - destruct i; discriminate H.
  - destruct i as [|i]; simpl in *.
    + inversion H; subst. rewrite Nat.add_0_r. reflexivity.
    + rewrite (IH (S t) i u H). do 3 f_equal. lia.
Qed.

(** The synchronous starts of the callbacks, taken together. *)
Lemma fold_startScan_spec (W : World) (urls : list string) :
  forall acc : App * list (string * Completion ScanResult),
    snd (fold_left (startScan W) urls acc)
    = (snd acc ++ scanOutcomes W (clock (fst acc)) urls)%list
    /\ trace (fst (fold_left (startScan W) urls acc))
       = (trace (fst acc) ++ map EvScanPage urls)%list
    /\ discoveredLinks (fst (fold_left (startScan W) urls acc))
       = fold_left (fun m x => updateLink x scanning noData m) urls
                   (discoveredLinks (fst acc))
    /\ discoveredAssets (fst (fold_left (startScan W) urls acc))
       = discoveredAssets (fst acc)
    /\ chatHistory (fst (fold_left (startScan W) urls acc))
       = chatHistory (fst acc).
Proof.
  induction urls as [|x urls IH]; intros acc; simpl.
  - rewrite !app_nil_r. repeat split.
  - destruct (IH (startScan W acc x)) as (H1 & H2 & H3 & H4 & H5).
    rewrite H1, H2, H3, H4, H5. unfold startScan, clock. simpl.
    rewrite length_app, <- !app_assoc. simpl.
    replace (length (trace (fst acc)) + 1) with (S (length (trace (fst acc))))
      by lia.
    repeat split.
Qed.

Lemma fold_settleNth_keeps (started : list (string * Completion ScanResult))
  (order : list nat) :
  forall st,
    trace (fold_left (settleNth started) order st) = trace st
    /\ chatHistory (fold_left (settleNth started) order st) = chatHistory st.
Proof.
  induction order as [|i order IH]; intros st; simpl; [split; reflexivity|].
  destruct (IH (settleNth started st i)) as [H1 H2]. rewrite H1, H2.
  unfold settleNth. destruct (nth_error started i) as [[u o]|];
    [|split; reflexivity].
  destruct (settleScan_keeps u o st) as (T & _ & _ & _ & C).
  split; assumption.
Qed.

Lemma get_fold_scanning (urls : list string) (c : string) :
  forall m,
    JsMap.get c (fold_left (fun m' x => updateLink x scanning noData m') urls m)
    = if existsb (String.eqb c) urls
      then Some (scanningRecord (JsMap.get c m))
      else JsMap.get c m.
Proof.
  induction urls as [|x urls IH]; intros m; simpl; [reflexivity|].
  rewrite IH, get_updateLink, spreadLink_scanning, (String.eqb_sym c x).
  destruct (String.eqb_spec x c) as [->|N]; simpl.
  - destruct (existsb (String.eqb c) urls); [|reflexivity].
    destruct (JsMap.get c m); reflexivity.
  - reflexivity.
Qed.

Lemma get_settleScan_same (u : string) (o : Completion ScanResult) (st : App)
  (old : option DiscoveredLink) :
  JsMap.get u (discoveredLinks st) = Some (scanningRecord old)
  \/ JsMap.get u (discoveredLinks st) = Some (settledRecord o old) ->
  JsMap.get u (discoveredLinks (settleScan u o st)) = Some (settledRecord o old).
Proof.
  intros H. rewrite discoveredLinks_settleScan.
  destruct o as [r|e].
  - rewrite get_fold_registerLink, get_updateLink, String.eqb_refl.
    destruct H as [-> | ->]; destruct old; reflexivity.
  - rewrite get_updateLink, String.eqb_refl.
    destruct H as [-> | ->]; destruct old; reflexivity.
Qed.

(** The settlements of scans that each have their own URL. *)
Lemma settleAll_records (started : list (string * Completion ScanResult))
  (old : string -> option DiscoveredLink) :
  NoDup (map fst started) ->
  forall order st,
    (forall u o, In (u, o) started ->
       JsMap.get u (discoveredLinks st) = Some (scanningRecord (old u))
       \/ JsMap.get u (discoveredLinks st) = Some (settledRecord o (old u))) ->
    forall i u o,
      nth_error started i = Some (u, o) ->
      In i order
      \/ JsMap.get u (discoveredLinks st) = Some (settledRecord o (old u)) ->
      JsMap.get u (discoveredLinks (fold_left (settleNth started) order st))
      = Some (settledRecord o (old u)).
Proof.
  intros ND. induction order as [|i0 order IH]; intros st Inv i u o Hi Hc; simpl.
  - destruct Hc as [[]|Hc]. exact Hc.
  - unfold settleNth at 2.
    destruct (nth_error started i0) as [[u0 o0]|] eqn:E0.
    + assert (In0 := nth_error_In _ _ E0).
      assert (Same : JsMap.get u0 (discoveredLinks (settleScan u0 o0 st))
                     = Some (settledRecord o0 (old u0))).
      { apply get_settleScan_same, Inv, In0. }
      assert (Other : forall c, c <> u0 ->
                JsMap.get c (discoveredLinks st) <> None ->
                JsMap.get c (discoveredLinks (settleScan u0 o0 st))
                = JsMap.get c (discoveredLinks st)).
      { intros c N P. apply get_settleScan_other; assumption. }
      apply (IH (settleScan u0 o0 st)) with (i := i); [|exact Hi|].
      * intros u' o' H'.
        destruct (String.eqb_spec u' u0) as [->|N].
        -- right. rewrite (NoDup_fst_functional started u0 o' o0 ND H' In0).
           exact Same.
        -- rewrite Other; [apply Inv, H' | exact N |].
           destruct (Inv u' o' H') as [-> | ->]; discriminate.
      * destruct Hc as [[<-|Hin]|Hc].
        -- right. rewrite E0 in Hi. inversion Hi; subst. exact Same.
        -- left. exact Hin.
        -- right. destruct (String.eqb_spec u u0) as [->|N].
           ++ rewrite (NoDup_fst_functional started u0 o o0 ND
                         (nth_error_In _ _ Hi) In0).
              exact Same.
           ++ rewrite Other; [exact Hc | exact N | rewrite Hc; discriminate].
    + apply (IH st Inv i u o Hi).
      destruct Hc as [[<-|Hin]|Hc]; [congruence | left; exact Hin | right; exact Hc].
Qed.

(** A link no scan of the call names, and that is in the map, is left as
    it is by the settlements. *)
Lemma settleAll_other (started : list (string * Completion ScanResult))
  (c : string) :
  ~ In c (map fst started) ->
  forall order st,
    JsMap.get c (discoveredLinks st) <> None ->
    JsMap.get c (discoveredLinks (fold_left (settleNth started) order st))
    = JsMap.get c (discoveredLinks st).
Proof.
  intros N. induction order as [|i order IH]; intros st P; simpl; [reflexivity|].
  unfold settleNth at 2.
  destruct (nth_error started i) as [[u o]|] eqn:E; [|apply IH; exact P].
  assert (Hne : c <> u).
  { intros ->. apply N. change u with (fst (u, o)).
    apply in_map. eapply nth_error_In. exact E. }
  rewrite IH; [apply get_settleScan_other; assumption|].
  rewrite get_settleScan_other; assumption.
Qed.

(** X6.  One [scanPages] call, whatever the order in which its scans
    settle: the page scanner is called once for each URL named, in the
    order of the list, before any result is applied; the payload lists one
    entry per URL in that same order, each with the outcome of its own
    scan; the transcript is not touched; and a link of the map that the
    call does not name keeps its record. *)
Theorem scanPages_reports_in_request_order
  (W : World) (urlsToScan : list string) (st : App) :
  snd (scanPages W urlsToScan st)
  = JSON_stringify W
      (JArray (map scanResultEntry (scanOutcomes W (clock st) urlsToScan))) None
  /\ trace (fst (scanPages W urlsToScan st))
     = (trace st ++ map EvScanPage urlsToScan)%list
  /\ chatHistory (fst (scanPages W urlsToScan st)) = chatHistory st
  /\ (forall c, ~ In c urlsToScan ->
        JsMap.get c (discoveredLinks st) <> None ->
        JsMap.get c (discoveredLinks (fst (scanPages W urlsToScan st)))
        = JsMap.get c (discoveredLinks st)).
Proof.
  unfold scanPages. simpl.
  destruct (fold_startScan_spec W urlsToScan (st, [])) as (H1 & H2 & H3 & _ & H5).
  simpl in *.
  destruct (fold_settleNth_keeps
              (snd (fold_left (startScan W) urlsToScan (st, [])))
              (settleOrder W (clock st) (length urlsToScan))
              (fst (fold_left (startScan W) urlsToScan (st, [])))) as [T C].
  rewrite T, C, H2, H5, H1. repeat split.
  intros c N P.
  assert (G : JsMap.get c (discoveredLinks
                (fst (fold_left (startScan W) urlsToScan (st, []))))
              = JsMap.get c (discoveredLinks st)).
  { rewrite H3, get_fold_scanning.
    destruct (existsb (String.eqb c) urlsToScan) eqn:E; [|reflexivity].
    apply existsb_exists in E. destruct E as (x & Hx & Ex).
    apply String.eqb_eq in Ex. subst x. contradiction. }
  rewrite <- H1.
  rewrite settleAll_other; [exact G | | rewrite G; exact P].
  rewrite H1, map_fst_scanOutcomes. exact N.
Qed.

Lemma scanPages_reports_in_request_order_witness :
  JsMap.get seedUrl
    (discoveredLinks (fst (scanPages (site neverStops) [urlC; urlB] seeded)))
  = JsMap.get seedUrl (discoveredLinks seeded).
Proof.
  apply (scanPages_reports_in_request_order (site neverStops) [urlC; urlB] seeded).
  - simpl. intros [H|[H|[]]]; discriminate H.
  - discriminate.
Defined.

(** X7.  One [scanPages] call that names each URL once and all of whose
    scans settle: every link named ends with the record its own scan
    gives it, whatever became of the other scans.  A scan that succeeded
    leaves the link scanned with the page's title, text and markup; a scan
    that failed leaves it failed with the title and content it had.  The
    [url] property is the one the record had before: a URL that was not in
    the map ends with a record that has none. *)
Theorem scanPages_settles_each
  (W : World) (urlsToScan : list string) (st : App) :
  NoDup urlsToScan ->
  (forall i, i < length urlsToScan ->
             In i (settleOrder W (clock st) (length urlsToScan))) ->
  forall i u,
    nth_error urlsToScan i = Some u ->
    JsMap.get u (discoveredLinks (fst (scanPages W urlsToScan st)))
    = Some (settledRecord (scanPage W (clock st + i) u)
                          (JsMap.get u (discoveredLinks st))).
Proof.
  intros ND All i u Hi. unfold scanPages. simpl.
  destruct (fold_startScan_spec W urlsToScan (st, [])) as (H1 & _ & H3 & _).
  simpl in *.
  apply (settleAll_records _ (fun x => JsMap.get x (discoveredLinks st)))
    with (i := i).
  - rewrite H1, map_fst_scanOutcomes. exact ND.
  - intros x o Hx. left. rewrite H3, get_fold_scanning.
    assert (Hin : In x urlsToScan).
    { rewrite <- (map_fst_scanOutcomes W urlsToScan (clock st)), <- H1.
      change x with (fst (x, o)). apply in_map. exact Hx. }
    rewrite (existsb_eqb_In x urlsToScan Hin). reflexivity.
  - rewrite H1. apply nth_error_scanOutcomes. exact Hi.
  - left. apply All. apply nth_error_Some. rewrite Hi. discriminate.
Qed.

Lemma scanPages_settles_each_witness :
  JsMap.get "https://site.test/gone"
    (discoveredLinks
       (fst (scanPages (site neverStops) [urlB; "https://site.test/gone"] seeded)))
  = Some {| url := None; status := failed; title := None;
            textContent := None; htmlContent := None |}
  /\ JsMap.get urlB
       (discoveredLinks
          (fst (scanPages (site neverStops) [urlB; "https://site.test/gone"] seeded)))
     = Some {| url := Some urlB; status := scanned; title := Some "About us";
               textContent := Some "About"; htmlContent := Some "<h1>About</h1>" |}.
Proof.
  assert (ND : NoDup [urlB; "https://site.test/gone"]).
  { repeat constructor; simpl; intuition discriminate. }
  assert (All : forall i, i < length [urlB; "https://site.test/gone"] ->
                In i (settleOrder (site neverStops) (clock seeded)
                        (length [urlB; "https://site.test/gone"]))).
  { intros i Hi. simpl. simpl in Hi. lia. }
  split.
  - apply (scanPages_settles_each (site neverStops)
             [urlB; "https://site.test/gone"] seeded ND All 1
             "https://site.test/gone" eq_refl).
  - apply (scanPages_settles_each (site neverStops)
             [urlB; "https://site.test/gone"] seeded ND All 0 urlB eq_refl).
Defined.

(** ** The bulk scan, link by link *)

Lemma get_bulkScanStep_same (W : World) (u : string) (st : App) :
  JsMap.get u (discoveredLinks (bulkScanStep W u st))
  = Some (settledRecord (scanPage W (clock st) u)
                        (JsMap.get u (discoveredLinks st))).
Proof.
  rewrite discoveredLinks_bulkScanStep.
  apply get_settleScan_same. left. simpl.
  rewrite get_updateLink, String.eqb_refl, spreadLink_scanning. reflexivity.
Qed.

(** What a turn of the loop does to a link other than the one it scans:
    nothing if the link is in the map, and if it is not, the link stays out
    or comes in as a pending link. *)
Lemma get_bulkScanStep_other_any (W : World) (u c : string) (st : App) :
  c <> u ->
  (forall l, JsMap.get c (discoveredLinks st) = Some l ->
             JsMap.get c (discoveredLinks (bulkScanStep W u st)) = Some l)
  /\ (JsMap.get c (discoveredLinks st) = None ->
      JsMap.get c (discoveredLinks (bulkScanStep W u st)) = None
      \/ JsMap.get c (discoveredLinks (bulkScanStep W u st))
         = Some (pendingLink c)).
Proof.
  intros N. split.
  - intros l H. rewrite get_bulkScanStep_other; [exact H | exact N |].
    rewrite H. discriminate.
  - intros H. rewrite discoveredLinks_bulkScanStep, discoveredLinks_settleScan.
    assert (E : forall s d,
              JsMap.get c (updateLink u s d
                             (discoveredLinks (updateLinkStatus u scanning noData st)))
              = None).
    { intros s d. simpl. rewrite !get_updateLink.
      destruct (String.eqb_spec u c); [congruence | exact H]. }
    destruct (scanPage W (clock st) u) as [r|e].
    + rewrite get_fold_registerLink, E.
      destruct (existsb (String.eqb c) (r_links r)); [right | left]; reflexivity.
    + left. apply E.
Qed.

Lemma fullScanLoop_other (W : World) (signal : nat) (c : string)
  (urls : list string) :
  ~ In c urls ->
  forall st,
    (forall l, JsMap.get c (discoveredLinks st) = Some l ->
               JsMap.get c (discoveredLinks (fullScanLoop W signal urls st)) = Some l)
    /\ (JsMap.get c (discoveredLinks st) = None ->
        JsMap.get c (discoveredLinks (fullScanLoop W signal urls st)) = None
        \/ JsMap.get c (discoveredLinks (fullScanLoop W signal urls st))
           = Some (pendingLink c)).
Proof.
  induction urls as [|u urls IH]; intros N st; simpl.
  - split; [intros l H; exact H | intros H; left; exact H].
  - destruct (aborted signal st);
      [split; [intros l H; exact H | intros H; left; exact H]|].
    assert (Nu : c <> u) by (intros ->; apply N; left; reflexivity).
    assert (Nr : ~ In c urls) by (intros H; apply N; right; exact H).
    destruct (get_bulkScanStep_other_any W u c st Nu) as [S1 S2].
    destruct (IH Nr (bulkScanStep W u st)) as [L1 L2].
    split.
    + intros l H. apply L1, S1, H.
    + intros H. destruct (S2 H) as [E|E]; [apply L2, E|].
      right. apply L1, E.
Qed.

Lemma fullScanLoop_records (W : World) (signal : nat) (urls : list string) :
  NoDup urls ->
  forall st,
    aborted signal st = false ->
    (forall i, i < length urls -> userStops W (clock st + i) = false) ->
    (forall u, In u urls -> JsMap.get u (discoveredLinks st) <> None) ->
    forall i u,
      nth_error urls i = Some u ->
      JsMap.get u (discoveredLinks (fullScanLoop W signal urls st))
      = Some (settledRecord (scanPage W (clock st + i) u)
                            (JsMap.get u (discoveredLinks st))).
Proof.
  induction 1 as [|x urls Hnotin ND IH]; intros st A Q P i u Hi.
  - destruct i; discriminate Hi.
  - simpl. rewrite A.
    assert (Q0 : userStops W (clock st) = false).
    { rewrite <- (Nat.add_0_r (clock st)). apply Q. simpl. lia. }
    destruct i as [|i]; simpl in Hi.
    + inversion Hi; subst x. rewrite Nat.add_0_r.
      apply (fullScanLoop_other W signal u urls Hnotin (bulkScanStep W u st)).
      apply get_bulkScanStep_same.
    + assert (Hu : In u urls) by (eapply nth_error_In; exact Hi).
      assert (N : u <> x) by (intros ->; contradiction).
      assert (F : forall c, In c urls ->
                JsMap.get c (discoveredLinks (bulkScanStep W x st))
                = JsMap.get c (discoveredLinks st)).
      { intros c Hc. apply get_bulkScanStep_other.
        - intros ->. contradiction.
        - apply P. right. exact Hc. }
      rewrite (IH (bulkScanStep W x st)) with (i := i) (u := u).
      * rewrite clock_bulkScanStep, (F u Hu). do 3 f_equal. lia.
      * rewrite aborted_bulkScanStep_quiet; assumption.
      * intros j Hj. rewrite clock_bulkScanStep.
        replace (S (clock st) + j) with (clock st + S j) by lia.
        apply Q. simpl. lia.
      * intros c Hc. rewrite (F c Hc). apply P. right. exact Hc.
      * exact Hi.
Qed.

(** Whatever the stops, the scans a loop makes are those of a prefix of
    its list, in order. *)
Lemma fullScanLoop_scans_prefix (W : World) (signal : nat) (urls : list string) :
  forall st, exists n,
    trace (fullScanLoop W signal urls st)
    = (trace st ++ map EvScanPage (firstn n urls))%list.
Proof.
  induction urls as [|u urls IH]; intros st; simpl.
  - exists 0. rewrite app_nil_r. reflexivity.
  - destruct (aborted signal st).
    + exists 0. simpl. rewrite app_nil_r. reflexivity.
    + destruct (IH (bulkScanStep W u st)) as [n E].
      exists (S n). rewrite E, trace_bulkScanStep, <- app_assoc. reflexivity.
Qed.

(** X8.  A bulk scan that nobody stops, on a well-formed frontier: the
    page scanner is called once for each link that was pending when the
    scan was started, in the order of the map and for no other URL, and
    each of these links ends with the record its own scan gives it:
    scanned with the page's title, text and markup, or failed with what it
    had; a failure does not keep the later links from being scanned. *)
Theorem handleFullScan_scans_every_pending_link
  (W : World) (isAiTriggered : bool) (st : App) :
  wfLinks (discoveredLinks st) ->
  (forall i, i < length (pendingUrls (discoveredLinks st)) ->
             userStops W (clock st + i) = false) ->
  trace (handleFullScan W isAiTriggered st)
  = (trace st ++ map EvScanPage (pendingUrls (discoveredLinks st)))%list
  /\ forall i u,
       nth_error (pendingUrls (discoveredLinks st)) i = Some u ->
       JsMap.get u (discoveredLinks (handleFullScan W isAiTriggered st))
       = Some (settledRecord (scanPage W (clock st + i) u)
                             (JsMap.get u (discoveredLinks st))).
Proof.
  intros WF Q.
  destruct (handleFullScan_loop W isAiTriggered st)
    as (st0 & E & HL & _ & HT & _ & _ & _ & HA).
  rewrite E. simpl.
  assert (Q0 : forall i, i < length (pendingUrls (discoveredLinks st)) ->
                         userStops W (clock st0 + i) = false).
  { unfold clock. rewrite HT. exact Q. }
  split.
  - rewrite (proj1 (fullScanLoop_unstopped W _ _ st0 HA Q0)), HT. reflexivity.
  - intros i u Hi.
    rewrite (fullScanLoop_records W (length (abortControllers st))
               (pendingUrls (discoveredLinks st))
               (pendingUrls_NoDup _ WF) st0 HA Q0) with (i := i) (u := u).
    + unfold clock. rewrite HT, HL. reflexivity.
    + intros c Hc. rewrite HL.
      assert (P := pendingUrls_pending _ _ WF Hc). unfold statusOf in P.
      destruct (JsMap.get c (discoveredLinks st)); discriminate.
    + exact Hi.
Qed.

Lemma handleFullScan_scans_every_pending_link_witness :
  trace (handleFullScan (site neverStops) false seeded)
  = (trace seeded ++ [EvScanPage urlB; EvScanPage urlC])%list
  /\ JsMap.get urlC (discoveredLinks (handleFullScan (site neverStops) false seeded))
     = Some {| url := Some urlC; status := scanned; title := Some "Contact";
               textContent := Some "Contact";
               htmlContent := Some "<h1>Contact</h1>" |}.
Proof.
  assert (WF : wfLinks (discoveredLinks seeded)).
  { apply (wfLinks_seedLinksMap seedUrl
             {| r_textContent := "Welcome"; r_links := [urlB; urlC];
                r_assets := [logo]; r_title := "Home";
                r_htmlContent := "<h1>Welcome</h1>" |}). }
  destruct (handleFullScan_scans_every_pending_link (site neverStops) false seeded WF)
    as [T G].
  - intros i _. reflexivity.
  - split; [exact T | apply (G 1 urlC eq_refl)].
Defined.

(** X9.  A bulk scan, stopped or not, on a well-formed frontier: its scans
    are those of the first so many links that were pending at its start, in
    the order of the map; a link that was in the map and not pending keeps
    its record, so nothing is scanned a second time; and a URL that was not
    in the map is afterwards still out of it or in it as a pending link, so
    a link found during the scan is left for a later scan. *)
Theorem handleFullScan_touches_pending_only
  (W : World) (isAiTriggered : bool) (st : App) :
  wfLinks (discoveredLinks st) ->
  (exists n,
      trace (handleFullScan W isAiTriggered st)
      = (trace st
         ++ map EvScanPage (firstn n (pendingUrls (discoveredLinks st))))%list)
  /\ forall c,
       statusOf c (discoveredLinks st) <> Some pending ->
       (forall l, JsMap.get c (discoveredLinks st) = Some l ->
          JsMap.get c (discoveredLinks (handleFullScan W isAiTriggered st))
          = Some l)
       /\ (JsMap.get c (discoveredLinks st) = None ->
           JsMap.get c (discoveredLinks (handleFullScan W isAiTriggered st)) = None
           \/ JsMap.get c (discoveredLinks (handleFullScan W isAiTriggered st))
              = Some {| url := Some c; status := pending;
                        title := Some "Unknown Title";
                        textContent := None; htmlContent := None |}).
Proof.
  intros WF.
  destruct (handleFullScan_loop W isAiTriggered st)
    as (st0 & E & HL & _ & HT & _).
  rewrite E. simpl. split.
  - destruct (fullScanLoop_scans_prefix W (length (abortControllers st))
                (pendingUrls (discoveredLinks st)) st0) as [n En].
    exists n. rewrite En, HT. reflexivity.
  - intros c Hc.
    assert (N : ~ In c (pendingUrls (discoveredLinks st))).
    { intros Hin. apply Hc. apply pendingUrls_pending; assumption. }
    destruct (fullScanLoop_other W (length (abortControllers st)) c
                (pendingUrls (discoveredLinks st)) N st0) as [L1 L2].
    rewrite HL in L1, L2. split; [exact L1 | exact L2].
Qed.

Lemma handleFullScan_touches_pending_only_witness :
  JsMap.get seedUrl (discoveredLinks (handleFullScan (site neverStops) false seeded))
  = JsMap.get seedUrl (discoveredLinks seeded)
  /\ statusOf urlD (discoveredLinks (handleFullScan (site neverStops) false seeded))
     = Some pending.
Proof.
  assert (WF : wfLinks (discoveredLinks seeded)).
  { apply (wfLinks_seedLinksMap seedUrl
             {| r_textContent := "Welcome"; r_links := [urlB; urlC];
                r_assets := [logo]; r_title := "Home";
                r_htmlContent := "<h1>Welcome</h1>" |}). }
  destruct (handleFullScan_touches_pending_only (site neverStops) false seeded WF)
    as [_ H].
  split.
  - destruct (H seedUrl) as [K _]; [discriminate|].
    apply K. reflexivity.
  - reflexivity.
Defined.

(** ** The transcript *)

Lemma chatHistory_fullScanLoop (W : World) (signal : nat) (urls : list string) :
  forall st, chatHistory (fullScanLoop W signal urls st) = chatHistory st.
Proof.
  induction urls as [|u urls IH]; intros st; simpl; [reflexivity|].
  destruct (aborted signal st); [reflexivity|].
  rewrite IH. apply bulkScanStep_keeps.
Qed.

Lemma chatHistory_handleFullScan (W : World) (isAiTriggered : bool) (st : App) :
  chatHistory (handleFullScan W isAiTriggered st) = chatHistory st.
Proof.
  unfold handleFullScan. cbv zeta.
  change (chatHistory (setIsFullScanning false ?x)) with (chatHistory x).
  rewrite chatHistory_fullScanLoop. destruct isAiTriggered; reflexivity.
Qed.

Lemma chatHistory_scanPages (W : World) (urlsToScan : list string) (st : App) :
  chatHistory (fst (scanPages W urlsToScan st)) = chatHistory st.
Proof.
  unfold scanPages. simpl.
  rewrite (proj2 (fold_settleNth_keeps _ _ _)).
  destruct (fold_startScan_spec W urlsToScan (st, [])) as (_ & _ & _ & _ & H).
  exact H.
Qed.

Lemma chatHistory_dispatchToolCall (W : World) (links : JsMap.t DiscoveredLink)
  (functionCall : FunctionCall) (st : App) :
  chatHistory (d_state (dispatchToolCall W links functionCall st))
  = chatHistory st.
Proof.
  unfold dispatchToolCall.
  destruct (String.eqb (name functionCall) "scanPages");
    [apply chatHistory_scanPages|].
  destruct (String.eqb (name functionCall) "extractDataFromPage").
  { destruct (scannedMarkup _); reflexivity. }
  destruct (String.eqb (name functionCall) "performSeoAnalysis").
  { destruct (scannedMarkup _); reflexivity. }
  destruct (String.eqb (name functionCall) "analyzeImageFromUrl");
    [reflexivity|].
  destruct (String.eqb (name functionCall) "scanAllPendingPages");
    [apply chatHistory_handleFullScan | reflexivity].
Qed.

Lemma sendAndProcess_appends (W : World) (p : SendPayload) (st : App) :
  exists added,
    chatHistory (stateOf (sendAndProcess W p st)) = (chatHistory st ++ added)%list
    /\ forallb fromBot added = true
    /\ (forall rs, sendMessageStream W (clock st) p = Ok rs -> added <> [])
    /\ (forall e, sendMessageStream W (clock st) p = Throw e -> added = []).
Proof.
  unfold sendAndProcess.
  destruct (sendMessageStream W (clock st) p) as [rs|e]; simpl.
  - destruct (processStream_appends rs (logEvent (EvSendMessageStream p) st))
      as (added & E & N & F).
    exists added. split; [exact E|]. split; [exact F|].
    split; [intros _ _; exact N | intros e H; discriminate H].
  - exists []. rewrite app_nil_r. split; [reflexivity|]. split; [reflexivity|].
    split; [intros rs H; discriminate H | reflexivity].
Qed.

Lemma chatHistory_withoutProposal (functionCall : FunctionCall) (st : App) :
  chatHistory (withoutProposal functionCall st)
  = filter (fun msg => negb (isProposalOf functionCall msg)) (chatHistory st).
Proof. simpl. apply filter_ext. intros [t s|c]; reflexivity. Qed.

Lemma handleFunctionCallResponse_history
  (W : World) (approved : bool) (functionCall : FunctionCall) (st : App) :
  exists added,
    chatHistory (stateOf (handleFunctionCallResponse W approved functionCall st))
    = (filter (fun msg => negb (isProposalOf functionCall msg)) (chatHistory st)
       ++ added)%list
    /\ forallb fromBot added = true.
Proof.
  assert (F := chatHistory_withoutProposal functionCall st).
  unfold handleFunctionCallResponse. destruct approved; simpl negb; cbv iota.
  - set (d := dispatchToolCall W (discoveredLinks st) functionCall
                (withoutProposal functionCall st)).
    assert (D : chatHistory (d_state d)
                = chatHistory (withoutProposal functionCall st))
      by apply chatHistory_dispatchToolCall.
    destruct (chatRef (d_state d)).
    + destruct (sendAndProcess_appends W
                  (MessageFunctionResponse (name functionCall) (resultPayload d))
                  (d_state d)) as (added & E & B & _).
      exists added. rewrite E, D, F. split; [reflexivity | exact B].
    + exists []. simpl. rewrite D, F, app_nil_r. split; reflexivity.
  - exists [TextChatMessage declineNotice bot].
    change (chatHistory (stateOf (Resolved ?x))) with (chatHistory x).
    change (chatHistory (addMessage ?m ?x)) with (chatHistory x ++ [m])%list.
    rewrite F. split; reflexivity.
Qed.

(** X1.  Answering a proposal takes out of the transcript the proposals
    that are this very function-call object and nothing else: every other
    turn stays, in order, and what the handler adds comes after, all of it
    from the planner's side.  When the answer is a refusal the addition is
    the decline notice alone, no collaborator is called, nothing is sent to
    the planner and the frontier is as it was. *)
Theorem handleFunctionCallResponse_transcript
  (W : World) (approved : bool) (functionCall : FunctionCall) (st : App) :
  (exists added,
      chatHistory (stateOf (handleFunctionCallResponse W approved functionCall st))
      = (filter (fun msg => negb (isProposalOf functionCall msg)) (chatHistory st)
         ++ added)%list
      /\ forallb fromBot added = true)
  /\ (approved = false ->
      handleFunctionCallResponse W approved functionCall st
      = Resolved (stateOf (handleFunctionCallResponse W approved functionCall st))
      /\ chatHistory (stateOf (handleFunctionCallResponse W approved functionCall st))
         = (filter (fun msg => negb (isProposalOf functionCall msg)) (chatHistory st)
            ++ [TextChatMessage declineNotice bot])%list
      /\ trace (stateOf (handleFunctionCallResponse W approved functionCall st))
         = trace st
      /\ discoveredLinks (stateOf (handleFunctionCallResponse W approved functionCall st))
         = discoveredLinks st
      /\ discoveredAssets (stateOf (handleFunctionCallResponse W approved functionCall st))
         = discoveredAssets st).
Proof.
  split; [apply handleFunctionCallResponse_history|].
  intros ->. unfold handleFunctionCallResponse. simpl negb. cbv iota.
  change (stateOf (Resolved ?x)) with x.
  change (chatHistory (addMessage ?m ?x)) with (chatHistory x ++ [m])%list.
  rewrite chatHistory_withoutProposal. repeat split.
Qed.

Lemma handleFunctionCallResponse_transcript_witness :
  trace (stateOf (handleFunctionCallResponse (site neverStops) false
                    (toolCall 4 "scanPages" [urlB] "") seeded))
  = trace seeded.
Proof.
  apply (handleFunctionCallResponse_transcript (site neverStops) false
           (toolCall 4 "scanPages" [urlB] "") seeded).
  reflexivity.
Defined.

(** X2.  A plain message of the user.  Without a session the handler does
    nothing at all.  With one, the user's turn is added first, one message
    is sent and no other collaborator is called, the frontier is not
    touched, and the planner's turns follow the user's: at least one when
    the reply arrives, none when the transport fails, in which case the
    handler fails with the transport's error and the user's turn stays. *)
Theorem handleSendMessage_exchange (W : World) (t : string) (st : App) :
  (chatRef st = None -> handleSendMessage W t st = Resolved st)
  /\ (forall session, chatRef st = Some session ->
      trace (stateOf (handleSendMessage W t st))
      = (trace st ++ [EvSendMessageStream (MessageText t)])%list
      /\ discoveredLinks (stateOf (handleSendMessage W t st)) = discoveredLinks st
      /\ discoveredAssets (stateOf (handleSendMessage W t st)) = discoveredAssets st
      /\ exists added,
           chatHistory (stateOf (handleSendMessage W t st))
           = (chatHistory st ++ TextChatMessage t user :: added)%list
           /\ forallb fromBot added = true
           /\ (forall rs, sendMessageStream W (clock st) (MessageText t) = Ok rs ->
                 added <> []
                 /\ handleSendMessage W t st
                    = Resolved (stateOf (handleSendMessage W t st)))
           /\ (forall e, sendMessageStream W (clock st) (MessageText t) = Throw e ->
                 added = []
                 /\ handleSendMessage W t st
                    = Rejected e (stateOf (handleSendMessage W t st)))).
Proof.
  unfold handleSendMessage. split.
  - intros ->. reflexivity.
  - intros session ->.
    set (st1 := addMessage (TextChatMessage t user) st).
    destruct (sendAndProcess_keeps W (MessageText t) st1) as (K1 & K2 & K3 & _).
    destruct (sendAndProcess_appends W (MessageText t) st1)
      as (added & E & B & Hok & Hfail).
    rewrite K1, K2, K3. repeat split.
    exists added. split; [rewrite E; simpl; rewrite <- app_assoc; reflexivity|].
    split; [exact B|].
    change (clock st1) with (clock st) in *.
    split.
    + intros rs H. split; [apply (Hok rs H)|].
      unfold sendAndProcess. change (clock st1) with (clock st).
      rewrite H. reflexivity.
    + intros e H. split; [apply (Hfail e H)|].
      unfold sendAndProcess. change (clock st1) with (clock st).
      rewrite H. reflexivity.
Qed.

Lemma handleSendMessage_exchange_witness :
  trace (stateOf (handleSendMessage (site neverStops) "What next?" seeded))
  = (trace seeded ++ [EvSendMessageStream (MessageText "What next?")])%list
  /\ handleSendMessage (site neverStops) "What next?" initialApp
     = Resolved initialApp.
Proof.
  destruct (handleSendMessage_exchange (site neverStops) "What next?" seeded)
    as [_ H].
  destruct (H 0 eq_refl) as (T & _).
  split; [exact T|].
  apply (handleSendMessage_exchange (site neverStops) "What next?" initialApp).
  reflexivity.
Defined.

(** ** What only grows *)

Lemma extends_refl {A : Type} (l : list A) : extends l l.
Proof. exists []. rewrite app_nil_r. reflexivity. Qed.

Lemma extends_trans {A : Type} (a b c : list A) :
  extends a b -> extends b c -> extends a c.
Proof.
  intros [m1 ->] [m2 ->]. exists (m1 ++ m2)%list. rewrite app_assoc. reflexivity.
Qed.

Lemma JsMap_set_absent {V : Type} (k : string) (v : V) (m : JsMap.t V) :
  JsMap.has k m = false -> JsMap.set k v m = (m ++ [(k, v)])%list.
Proof.
  unfold JsMap.has. induction m as [|[k0 v0] m IH]; simpl; [reflexivity|].
  destruct (String.eqb k0 k); [discriminate|].
  intros H. rewrite (IH H). reflexivity.
Qed.

Lemma extends_addAssets (assets : list DiscoveredAsset)
  (m : JsMap.t DiscoveredAsset) : extends m (addAssets assets m).
Proof.
  unfold addAssets. revert m.
  induction assets as [|a assets IH]; intros m; simpl; [apply extends_refl|].
  eapply extends_trans; [|apply IH].
  unfold addAsset. destruct (JsMap.has (asset_url a) m) eqn:H; simpl.
  - apply extends_refl.
  - rewrite (JsMap_set_absent _ _ _ H). eexists. reflexivity.
Qed.

Lemma extends_assets_settleScan (u : string) (o : Completion ScanResult) (st : App) :
  extends (discoveredAssets st) (discoveredAssets (settleScan u o st)).
Proof.
  destruct o as [r|e]; simpl; [|apply extends_refl].
  destruct (registerDiscoveredLinks_keeps (r_links r)
              (updateLinkStatus u scanned (scannedData r) st))
    as (_ & _ & _ & _ & H & _).
  rewrite H. apply extends_addAssets.
Qed.

Lemma extends_assets_bulkScanStep (W : World) (u : string) (st : App) :
  extends (discoveredAssets st) (discoveredAssets (bulkScanStep W u st)).
Proof.
  unfold bulkScanStep.
  eapply extends_trans; [|apply extends_assets_settleScan].
  destruct (userStops W _); [|apply extends_refl].
  unfold handleStopFullScan. simpl.
  destruct (fullScanAbortController st); apply extends_refl.
Qed.

Lemma extends_assets_fullScanLoop (W : World) (signal : nat) (urls : list string) :
  forall st,
    extends (discoveredAssets st)
            (discoveredAssets (fullScanLoop W signal urls st)).
Proof.
  induction urls as [|u urls IH]; intros st; simpl; [apply extends_refl|].
  destruct (aborted signal st); [apply extends_refl|].
  eapply extends_trans; [apply extends_assets_bulkScanStep | apply IH].
Qed.

Lemma extends_assets_handleFullScan (W : World) (isAiTriggered : bool) (st : App) :
  extends (discoveredAssets st)
          (discoveredAssets (handleFullScan W isAiTriggered st)).
Proof.
  unfold handleFullScan. cbv zeta.
  change (discoveredAssets (setIsFullScanning false ?x)) with (discoveredAssets x).
  eapply extends_trans; [|apply extends_assets_fullScanLoop].
  destruct isAiTriggered; apply extends_refl.
Qed.

Lemma extends_assets_scanPages (W : World) (urlsToScan : list string) (st : App) :
  extends (discoveredAssets st)
          (discoveredAssets (fst (scanPages W urlsToScan st))).
Proof.
  unfold scanPages. simpl.
  destruct (fold_startScan_spec W urlsToScan (st, [])) as (_ & _ & _ & H & _).
  simpl in H. rewrite <- H.
  generalize (fst (fold_left (startScan W) urlsToScan (st, []))) as st1.
  generalize (snd (fold_left (startScan W) urlsToScan (st, []))) as started.
  intros started.
  induction (settleOrder W (clock st) (length urlsToScan)) as [|i order IH];
    intros st1; simpl; [apply extends_refl|].
  eapply extends_trans; [|apply IH].
  unfold settleNth. destruct (nth_error started i) as [[u o]|];
    [apply extends_assets_settleScan | apply extends_refl].
Qed.

Lemma extends_assets_handleFunctionCallResponse (W : World) (approved : bool)
  (functionCall : FunctionCall) (st : App) :
  extends (discoveredAssets st)
    (discoveredAssets (stateOf (handleFunctionCallResponse W approved functionCall st))).
Proof.
  unfold handleFunctionCallResponse.
  destruct approved; simpl negb; cbv iota; [|apply extends_refl].
  assert (D : extends (discoveredAssets st)
                (discoveredAssets
                   (d_state (dispatchToolCall W (discoveredLinks st) functionCall
                               (withoutProposal functionCall st))))).
  { unfold dispatchToolCall.
    destruct (String.eqb (name functionCall) "scanPages");
      [apply (extends_assets_scanPages W _ (withoutProposal functionCall st))|].
    destruct (String.eqb (name functionCall) "extractDataFromPage").
    { destruct (scannedMarkup _); apply extends_refl. }
    destruct (String.eqb (name functionCall) "performSeoAnalysis").
    { destruct (scannedMarkup _); apply extends_refl. }
    destruct (String.eqb (name functionCall) "analyzeImageFromUrl");
      [apply extends_refl|].
    destruct (String.eqb (name functionCall) "scanAllPendingPages");
      [apply (extends_assets_handleFullScan W true (withoutProposal functionCall st))
      | apply extends_refl]. }
  destruct (chatRef _); [|exact D].
  match goal with |- context [sendAndProcess W ?p ?s] =>
    rewrite (proj1 (proj2 (sendAndProcess_keeps W p s))) end.
  exact D.
Qed.

Lemma filter_isText_withoutProposal (functionCall : FunctionCall)
  (l : list ChatMessage) :
  filter isText (filter (fun msg => negb (isProposalOf functionCall msg)) l)
  = filter isText l.
Proof.
  induction l as [|[t s|c] l IH]; simpl; [reflexivity | rewrite IH; reflexivity|].
  destruct (negb (sameCall c functionCall)); simpl; exact IH.
Qed.

Lemma JsMap_keys_set_extends {V : Type} (k : string) (v : V) (m : JsMap.t V) :
  extends (JsMap.keys m) (JsMap.keys (JsMap.set k v m)).
Proof.
  rewrite JsMap_keys_set. destruct (JsMap.has k m);
    [apply extends_refl | eexists; reflexivity].
Qed.

(** X10.  No operation on the open frontier takes anything away.  The keys
    of the link map keep their order and new ones come after them, so a
    link is never removed or moved; the asset map keeps every entry as it
    is and new entries come after, so an asset once recorded is never
    removed or rewritten; and the text turns of the transcript stay, in
    order, with new ones after them. *)
Theorem operations_only_add (W : World) (ops : list Op) (st : App) :
  extends (JsMap.keys (discoveredLinks st))
          (JsMap.keys (discoveredLinks (runOps W ops st)))
  /\ extends (discoveredAssets st) (discoveredAssets (runOps W ops st))
  /\ extends (filter isText (chatHistory st))
             (filter isText (chatHistory (runOps W ops st))).
Proof.
  split; [|split].
  - apply (inv_runOps
             (fun m => extends (JsMap.keys (discoveredLinks st)) (JsMap.keys m))).
    + intros u s data m _ _ _ H.
      eapply extends_trans; [exact H | apply JsMap_keys_set_extends].
    + intros x m H. unfold registerLink.
      destruct (JsMap.has x m); simpl; [exact H|].
      eapply extends_trans; [exact H | apply JsMap_keys_set_extends].
    + apply extends_refl.
  - unfold runOps. revert st.
    induction ops as [|op ops IH]; intros st; simpl; [apply extends_refl|].
    eapply extends_trans; [|apply IH].
    destruct op as [approved fc|ref u|t|ai|]; simpl.
    + apply extends_assets_handleFunctionCallResponse.
    + apply extends_assets_handleFunctionCallResponse.
    + unfold handleSendMessage. destruct (chatRef st); [|apply extends_refl].
      match goal with |- context [sendAndProcess W ?p ?s] =>
        rewrite (proj1 (proj2 (sendAndProcess_keeps W p s))) end.
      apply extends_refl.
    + apply extends_assets_handleFullScan.
    + unfold handleStopFullScan.
      destruct (fullScanAbortController st); apply extends_refl.
  - unfold runOps. revert st.
    induction ops as [|op ops IH]; intros st; simpl; [apply extends_refl|].
    eapply extends_trans; [|apply IH].
    assert (H : forall approved fc,
              extends (filter isText (chatHistory st))
                (filter isText
                   (chatHistory (stateOf (handleFunctionCallResponse W approved fc st))))).
    { intros approved fc.
      destruct (handleFunctionCallResponse_history W approved fc st)
        as (added & E & _).
      rewrite E, filter_app, filter_isText_withoutProposal.
      eexists. reflexivity. }
    destruct op as [approved fc|ref u|t|ai|]; unfold runOp.
    + apply H.
    + apply H.
    + unfold handleSendMessage. destruct (chatRef st); [|apply extends_refl].
      destruct (sendAndProcess_appends W (MessageText t)
                  (addMessage (TextChatMessage t user) st)) as (added & E & _).
      rewrite E. simpl. rewrite !filter_app. simpl.
      rewrite <- app_assoc. eexists. reflexivity.
    + rewrite chatHistory_handleFullScan. apply extends_refl.
    + unfold handleStopFullScan.
      destruct (fullScanAbortController st); apply extends_refl.
Qed.

(** ** The analysis tools on a scanned page, and the image tool *)

Lemma scannedMarkup_Some (l : DiscoveredLink) (h : string) :
  status l = scanned -> htmlContent l = Some h -> h <> "" ->
  scannedMarkup (Some l) = Some h.
Proof.
  intros S H N. unfold scannedMarkup. rewrite S, H. simpl.
  destruct h; [congruence | reflexivity].
Qed.

(** X11.  An approved [extractDataFromPage] or [performSeoAnalysis] on a
    link that is scanned with markup present: the analyzer is called once,
    on the markup the scan stored (the page is not fetched again), its
    result is wrapped with [success: true] and sent to the planner, and the
    frontier is not touched. *)
Theorem analysis_tools_use_stored_markup
  (W : World) (functionCall : FunctionCall) (st : App)
  (l : DiscoveredLink) (h : string) (session : nat) :
  JsMap.get (arg_url (args functionCall)) (discoveredLinks st) = Some l ->
  status l = scanned -> htmlContent l = Some h -> h <> "" ->
  chatRef st = Some session ->
  (name functionCall = "extractDataFromPage" ->
   trace (stateOf (handleFunctionCallResponse W true functionCall st))
   = (trace st
      ++ [EvExtractStructuredData h (arg_dataType (args functionCall));
          EvSendMessageStream
            (MessageFunctionResponse "extractDataFromPage"
               (JSON_stringify W
                  (JObject
                     [("success", JBool true);
                      ("data",
                       extractStructuredData W (clock st) h
                         (arg_dataType (args functionCall)))])
                  None))])%list)
  /\ (name functionCall = "performSeoAnalysis" ->
      trace (stateOf (handleFunctionCallResponse W true functionCall st))
      = (trace st
         ++ [EvAnalyzeSeo h;
             EvSendMessageStream
               (MessageFunctionResponse "performSeoAnalysis"
                  (JSON_stringify W
                     (JObject [("success", JBool true);
                               ("data", analyzeSeo W (clock st) h)])
                     None))])%list)
  /\ (name functionCall = "extractDataFromPage"
      \/ name functionCall = "performSeoAnalysis" ->
      discoveredLinks (stateOf (handleFunctionCallResponse W true functionCall st))
      = discoveredLinks st
      /\ discoveredAssets (stateOf (handleFunctionCallResponse W true functionCall st))
         = discoveredAssets st).
Proof.
  intros G S H N C.
  assert (M := scannedMarkup_Some l h S H N).
  assert (E1 : name functionCall = "extractDataFromPage" ->
    handleFunctionCallResponse W true functionCall st
    = sendAndProcess W
        (MessageFunctionResponse "extractDataFromPage"
           (JSON_stringify W
              (JObject
                 [("success", JBool true);
                  ("data",
                   extractStructuredData W (clock st) h
                     (arg_dataType (args functionCall)))]) None))
        (logEvent (EvExtractStructuredData h (arg_dataType (args functionCall)))
           (withoutProposal functionCall st))).
  { intros Hn. unfold handleFunctionCallResponse, dispatchToolCall.
    simpl negb. cbv iota. rewrite Hn, G, M. simpl. rewrite C. reflexivity. }
  assert (E2 : name functionCall = "performSeoAnalysis" ->
    handleFunctionCallResponse W true functionCall st
    = sendAndProcess W
        (MessageFunctionResponse "performSeoAnalysis"
           (JSON_stringify W
              (JObject [("success", JBool true);
                        ("data", analyzeSeo W (clock st) h)]) None))
        (logEvent (EvAnalyzeSeo h) (withoutProposal functionCall st))).
  { intros Hn. unfold handleFunctionCallResponse, dispatchToolCall.
    simpl negb. cbv iota. rewrite Hn, G, M. simpl. rewrite C. reflexivity. }
  split; [|split].
  - intros Hn. rewrite (E1 Hn).
    match goal with |- context [sendAndProcess W ?p ?s] =>
      rewrite (proj1 (proj2 (proj2 (sendAndProcess_keeps W p s)))) end.
    simpl. rewrite <- app_assoc. reflexivity.
  - intros Hn. rewrite (E2 Hn).
    match goal with |- context [sendAndProcess W ?p ?s] =>
      rewrite (proj1 (proj2 (proj2 (sendAndProcess_keeps W p s)))) end.
    simpl. rewrite <- app_assoc. reflexivity.
  - intros [Hn|Hn]; [rewrite (E1 Hn) | rewrite (E2 Hn)];
      match goal with |- context [sendAndProcess W ?p ?s] =>
        destruct (sendAndProcess_keeps W p s) as (K1 & K2 & _) end;
      rewrite K1, K2; split; reflexivity.
Qed.

Lemma analysis_tools_use_stored_markup_witness :
  trace (stateOf (handleFunctionCallResponse (site neverStops) true
                    (toolCall 3 "performSeoAnalysis" [] seedUrl) seeded))
  = (trace seeded
     ++ [EvAnalyzeSeo "<h1>Welcome</h1>";
         EvSendMessageStream
           (MessageFunctionResponse "performSeoAnalysis"
              (JSON_stringify (site neverStops)
                 (JObject [("success", JBool true);
                           ("data", analyzeSeo (site neverStops) (clock seeded)
                                      "<h1>Welcome</h1>")])
                 None))])%list.
Proof.
  apply (analysis_tools_use_stored_markup (site neverStops)
           (toolCall 3 "performSeoAnalysis" [] seedUrl) seeded
           {| url := Some seedUrl; status := scanned; title := Some "Home";
              textContent := Some "Welcome";
              htmlContent := Some "<h1>Welcome</h1>" |}
           "<h1>Welcome</h1>" 0);
    try reflexivity.
  discriminate.
Defined.

(** X12.  An approved [analyzeImageFromUrl]: the image is fetched once, a
    failure of the fetch does not fail the handler but becomes the payload
    [success: false] with the error's message, a success becomes the
    inline data with the call's prompt, the payload is sent to the planner,
    and the frontier is not touched. *)
Theorem analyzeImageFromUrl_reports
  (W : World) (functionCall : FunctionCall) (st : App) (session : nat) :
  name functionCall = "analyzeImageFromUrl" ->
  chatRef st = Some session ->
  trace (stateOf (handleFunctionCallResponse W true functionCall st))
  = (trace st
     ++ [EvFetchAndEncodeImage (arg_url (args functionCall));
         EvSendMessageStream
           (MessageFunctionResponse "analyzeImageFromUrl"
              (JSON_stringify W
                 (match fetchAndEncodeImage W (clock st)
                          (arg_url (args functionCall)) with
                  | Ok img =>
                      JObject
                        [("image",
                          JObject
                            [("inlineData",
                              JObject [("data", JString (base64Data img));
                                       ("mimeType", JString (mimeType img))])]);
                         ("prompt", JString (arg_prompt (args functionCall)))]
                  | Throw e =>
                      JObject
                        [("success", JBool false);
                         ("error",
                          JString ("Failed to fetch or encode image: "
                                   ++ message e))]
                  end)
                 None))])%list
  /\ discoveredLinks (stateOf (handleFunctionCallResponse W true functionCall st))
     = discoveredLinks st
  /\ discoveredAssets (stateOf (handleFunctionCallResponse W true functionCall st))
     = discoveredAssets st
  /\ (forall e st',
        handleFunctionCallResponse W true functionCall st = Rejected e st' ->
        exists t p, sendMessageStream W t p = Throw e).
Proof.
  intros Hn C.
  unfold handleFunctionCallResponse, dispatchToolCall.
  simpl negb. cbv iota. rewrite Hn. simpl String.eqb. cbv iota.
  cbv beta iota delta [d_state resultPayload].
  change (chatRef (logEvent ?e (withoutProposal functionCall st))) with (chatRef st).
  rewrite C.
  change (clock (withoutProposal functionCall st)) with (clock st).
  match goal with |- context [sendAndProcess W ?p ?s] =>
    destruct (sendAndProcess_keeps W p s) as (K1 & K2 & K3 & _);
    set (payload := p) in *; set (st2 := s) in * end.
  rewrite K1, K2, K3.
  split; [|split; [reflexivity | split; [reflexivity|]]].
  - subst payload st2. simpl trace. rewrite <- app_assoc.
    destruct (fetchAndEncodeImage W (clock st) (arg_url (args functionCall)));
      reflexivity.
  - intros e st'. unfold sendAndProcess.
    destruct (sendMessageStream W (clock st2) payload) eqn:S; [discriminate|].
    intros R. inversion R; subst. eauto.
Qed.

Lemma analyzeImageFromUrl_reports_witness :
  discoveredLinks
    (stateOf (handleFunctionCallResponse (site neverStops) true
                (toolCall 6 "analyzeImageFromUrl" [] "https://site.test/logo.png")
                seeded))
  = discoveredLinks seeded.
Proof.
  apply (analyzeImageFromUrl_reports (site neverStops)
           (toolCall 6 "analyzeImageFromUrl" [] "https://site.test/logo.png")
           seeded 0); reflexivity.
Defined.

(** ** Chunks *)

(** X13.  The turns a reply adds depend on the reply only through the
    concatenation of its textual fragments and the tool-call list of the
    last chunk that carries one: how the text is cut into chunks and parts,
    empty fragments, chunks without candidates and the text of candidates
    other than the first make no difference. *)
Theorem processStream_chunking_invariant
  (rs1 rs2 : list GenerateContentResponse) (st : App) :
  streamText rs1 = streamText rs2 ->
  lastCalls rs1 = lastCalls rs2 ->
  processStreamAndAddMessages rs1 st = processStreamAndAddMessages rs2 st.
Proof.
  intros T C. unfold processStreamAndAddMessages.
  rewrite !accumulateStream_spec. simpl. rewrite T, C. reflexivity.
Qed.

Lemma processStream_chunking_invariant_witness :
  processStreamAndAddMessages
    [textChunk "Hel";
     {| candidates := Some []; functionCalls := None |};
     {| candidates :=
          Some [{| content :=
                     Some {| parts := Some [{| text := Some "lo" |};
                                            {| text := Some "" |};
                                            {| text := Some " world" |}] |} |};
                {| content :=
                     Some {| parts := Some [{| text := Some "ignored" |}] |} |}];
        functionCalls := None |}]
    initialApp
  = processStreamAndAddMessages [textChunk "Hello world"] initialApp.
Proof.
  apply processStream_chunking_invariant; reflexivity.
Defined.

(** ** One tool result per approved call *)

Lemma forallb_scans (urls : list string) :
  forallb (fun e => negb (isSend e)) (map EvScanPage urls) = true.
Proof. induction urls as [|u urls IH]; simpl; [reflexivity | exact IH]. Qed.

Lemma dispatchToolCall_calls (W : World) (links : JsMap.t DiscoveredLink)
  (functionCall : FunctionCall) (st : App) :
  exists calls,
    trace (d_state (dispatchToolCall W links functionCall st))
    = (trace st ++ calls)%list
    /\ forallb (fun e => negb (isSend e)) calls = true.
Proof.
  unfold dispatchToolCall.
  destruct (String.eqb (name functionCall) "scanPages").
  { exists (map EvScanPage (arg_urls (args functionCall))).
    split; [|apply forallb_scans].
    cbv beta iota delta [d_state].
    unfold scanPages. simpl.
    rewrite (proj1 (fold_settleNth_keeps _ _ _)).
    apply (fold_startScan_spec W (arg_urls (args functionCall)) (st, [])). }
  destruct (String.eqb (name functionCall) "extractDataFromPage").
  { destruct (scannedMarkup _); simpl.
    - eexists [_]. split; reflexivity.
    - exists []. rewrite app_nil_r. split; reflexivity. }
  destruct (String.eqb (name functionCall) "performSeoAnalysis").
  { destruct (scannedMarkup _); simpl.
    - eexists [_]. split; reflexivity.
    - exists []. rewrite app_nil_r. split; reflexivity. }
  destruct (String.eqb (name functionCall) "analyzeImageFromUrl").
  { simpl. eexists [_]. split; reflexivity. }
  destruct (String.eqb (name functionCall) "scanAllPendingPages").
  { cbv beta iota delta [d_state].
    destruct (handleFullScan_loop W true st) as (st0 & E & _ & _ & HT & _).
    destruct (fullScanLoop_scans_prefix W (length (abortControllers st))
                (pendingUrls (discoveredLinks st)) st0) as [n En].
    exists (map EvScanPage (firstn n (pendingUrls (discoveredLinks st)))).
    split; [|apply forallb_scans].
    rewrite E. simpl. rewrite En, HT. reflexivity. }
  exists []. simpl. rewrite app_nil_r. split; reflexivity.
Qed.


(** ** A stop pressed before a bulk scan *)

(** X15.  Every bulk scan has an abort flag of its own: a stop pressed
    before the scan is started, whether it aborted the controller of an
    earlier scan or found none, does not hold the scan back.  Not stopped
    itself, the scan calls the page scanner for every pending link. *)
Theorem handleFullScan_after_an_earlier_stop
  (W : World) (isAiTriggered : bool) (st : App) :
  (forall i, i < length (pendingUrls (discoveredLinks st)) ->
             userStops W (clock st + i) = false) ->
  trace (handleFullScan W isAiTriggered (handleStopFullScan st))
  = (trace st ++ map EvScanPage (pendingUrls (discoveredLinks st)))%list.
Proof.
  intros Q.
  assert (L : discoveredLinks (handleStopFullScan st) = discoveredLinks st
              /\ trace (handleStopFullScan st) = trace st).
  { unfold handleStopFullScan.
    destruct (fullScanAbortController st); split; reflexivity. }
  destruct L as [L T].
  destruct (handleFullScan_loop W isAiTriggered (handleStopFullScan st))
    as (st0 & E & _ & _ & HT & _ & _ & _ & HA).
  rewrite E.
  change (trace (setIsFullScanning false ?x)) with (trace x).
  rewrite L in *.
  assert (Q0 : forall i, i < length (pendingUrls (discoveredLinks st)) ->
                         userStops W (clock st0 + i) = false).
  { unfold clock. rewrite HT, T. exact Q. }
  rewrite (proj1 (fullScanLoop_unstopped W _ _ st0 HA Q0)).
  rewrite HT, T. reflexivity.
Qed.

Lemma handleFullScan_after_an_earlier_stop_witness :
  trace (handleFullScan (site neverStops) false
           (handleStopFullScan
              (handleFullScan (site (Nat.eqb 3)) false seeded)))
  = (trace (handleFullScan (site (Nat.eqb 3)) false seeded)
     ++ [EvScanPage urlC; EvScanPage urlD])%list.
Proof.
  apply (handleFullScan_after_an_earlier_stop (site neverStops) false
           (handleFullScan (site (Nat.eqb 3)) false seeded)).
  intros i _. reflexivity.
Defined.

(** ** The excerpt of a page in a tool result *)

Lemma substring_prefix (n : nat) (s : string) :
  String.length (substring 0 n s) <= n
  /\ exists rest, s = substring 0 n s ++ rest.
Proof.
  revert s. induction n as [|n IH]; intros s.
  - destruct s; simpl; (split; [lia | eexists; reflexivity]).
  - destruct s as [|c s]; simpl.
    + split; [lia | exists ""; reflexivity].
    + destruct (IH s) as [L [rest E]]. split; [lia|].
      exists rest. rewrite <- E. reflexivity.
Qed.

